(** * sloc: the comment-aware line classifier of [sloc.go]

    A shallow embedding of [Language.Update] (the per-byte scanning loop
    that sorts the lines of one file into code, comment and blank lines),
    of the table of languages with [handleFile] and [handleFileLang], of
    the walk [add] over the file system, and of the rows of the report
    with [LData.Less], [Swap] and [LResult.Add], followed by their
    properties.

    Conventions of the embedding:
    - a Go [int] is a [Z] kept in the 64-bit two's complement range by
      [GoInt.wrap]; [x++] is [GoInt.incr x] and [x--] is [GoInt.decr x];
    - a Go [string] or [[]byte] is a [list byte];
    - a run-time panic (an index out of range) is [None]. *)

From Stdlib Require Import ZArith List Bool Lia Permutation.
From Stdlib Require Import Strings.Byte Strings.String.
Import ListNotations.

Local Open Scope Z_scope.

(** ** Go integers *)

Module GoInt.

Definition bits : Z := 64.
Definition modulus : Z := 2 ^ bits.
Definition half : Z := 2 ^ (bits - 1).
Definition min_int : Z := - half.
Definition max_int : Z := half - 1.

(** The value of a mathematical integer once stored in an [int]. *)
Definition wrap (z : Z) : Z := (z + half) mod modulus - half.

Definition incr (z : Z) : Z := wrap (z + 1).
Definition decr (z : Z) : Z := wrap (z - 1).

Definition in_range (z : Z) : Prop := min_int <= z <= max_int.

End GoInt.

Import GoInt.

(** ** Slices and strings *)

(** [len m] of Go. *)
Definition len {A : Type} (m : list A) : Z := Z.of_nat (List.length m).

(** [m[i]] of Go: a panic when [i] is out of range. *)
Definition index {A : Type} (m : list A) (i : Z) : option A :=
  if i <? 0 then None else nth_error m (Z.to_nat i).

(** [[]byte(s)] for a string literal [s]. *)
Definition bytes (s : string) : list byte := list_byte_of_string s.

Definition NUL : byte := x00.
Definition TAB : byte := x09.
Definition NL : byte := x0a.
Definition CR : byte := x0d.
Definition SPACE : byte := x20.

(** ** A small error monad for panics *)

Definition ret {A : Type} (a : A) : option A := Some a.

Definition bind {A B : Type} (m : option A) (k : A -> option B) : option B :=
  match m with
  | Some a => k a
  | None => None
  end.

Notation "x <- m ;; k" := (bind m (fun x => k))
  (at level 61, m at next level, right associativity).

(** ** The data of [sloc.go] *)

Record Commenter : Type := mkCommenter {
  LineComment : list byte;
  StartComment : list byte;
  EndComment : list byte;
  Nesting : bool
}.

Record Stats : Type := mkStats {
  FileCount : Z;
  TotalLines : Z;
  CodeLines : Z;
  BlankLines : Z;
  CommentLines : Z
}.

(** The comment syntaxes of the table of languages.  The double-quoted
    ["\000"] of the source is the one-byte string holding NUL; the
    back-quoted one of [mlComments] is a raw string of four bytes. *)

Definition nul : list byte := [NUL].

Definition noComments := mkCommenter nul nul nul false.
Definition xmlComments := mkCommenter nul (bytes "<!--") (bytes "-->") false.
Definition cComments := mkCommenter (bytes "//") (bytes "/*") (bytes "*/") false.
Definition cssComments := mkCommenter nul (bytes "/*") (bytes "*/") false.
Definition shComments := mkCommenter (bytes "#") nul nul false.
Definition semiComments := mkCommenter (bytes ";") nul nul false.
Definition hsComments := mkCommenter (bytes "--") (bytes "{-") (bytes "-}") true.
Definition mlComments := mkCommenter (bytes "\000") (bytes "(*") (bytes "*)") false.
Definition sqlComments := mkCommenter (bytes "--") (bytes "/*") (bytes "*/") false.
Definition luaComments := mkCommenter (bytes "--") (bytes "--[[") (bytes "]]") false.
Definition pyComments :=
  mkCommenter (bytes "#") [x22; x22; x22] [x22; x22; x22] false.
Definition matlabComments := mkCommenter (bytes "%") (bytes "%{") (bytes "%}") false.
Definition erlangComments := mkCommenter (bytes "%") nul nul false.
Definition rubyComments := mkCommenter (bytes "#") (bytes "=begin") (bytes "=end") false.
Definition coffeeComments := mkCommenter (bytes "#") (bytes "###") (bytes "###") false.
Definition perlComments := mkCommenter (bytes "#") nul nul false.

(** ** The scanning loop of [Language.Update] *)

(** The local variables of [Update] together with the [Stats] it writes
    to through the pointer [s]. *)
Record Scan : Type := mkScan {
  inComment : Z;
  inLComment : bool;
  blank : bool;
  lp : Z;
  sp : Z;
  ep : Z;
  stats : Stats
}.

Definition set_inComment (v : Z) (st : Scan) : Scan :=
  mkScan v (inLComment st) (blank st) (lp st) (sp st) (ep st) (stats st).
Definition set_inLComment (v : bool) (st : Scan) : Scan :=
  mkScan (inComment st) v (blank st) (lp st) (sp st) (ep st) (stats st).
Definition set_blank (v : bool) (st : Scan) : Scan :=
  mkScan (inComment st) (inLComment st) v (lp st) (sp st) (ep st) (stats st).
Definition set_lp (v : Z) (st : Scan) : Scan :=
  mkScan (inComment st) (inLComment st) (blank st) v (sp st) (ep st) (stats st).
Definition set_sp (v : Z) (st : Scan) : Scan :=
  mkScan (inComment st) (inLComment st) (blank st) (lp st) v (ep st) (stats st).
Definition set_ep (v : Z) (st : Scan) : Scan :=
  mkScan (inComment st) (inLComment st) (blank st) (lp st) (sp st) v (stats st).
Definition set_stats (v : Stats) (st : Scan) : Scan :=
  mkScan (inComment st) (inLComment st) (blank st) (lp st) (sp st) (ep st) v.

Definition incr_FileCount (s : Stats) : Stats :=
  mkStats (incr (FileCount s)) (TotalLines s) (CodeLines s) (BlankLines s)
          (CommentLines s).
Definition incr_TotalLines (s : Stats) : Stats :=
  mkStats (FileCount s) (incr (TotalLines s)) (CodeLines s) (BlankLines s)
          (CommentLines s).
Definition incr_CodeLines (s : Stats) : Stats :=
  mkStats (FileCount s) (TotalLines s) (incr (CodeLines s)) (BlankLines s)
          (CommentLines s).
Definition incr_BlankLines (s : Stats) : Stats :=
  mkStats (FileCount s) (TotalLines s) (CodeLines s) (incr (BlankLines s))
          (CommentLines s).
Definition incr_CommentLines (s : Stats) : Stats :=
  mkStats (FileCount s) (TotalLines s) (CodeLines s) (BlankLines s)
          (incr (CommentLines s)).

(** [g && b == m[p]]: the index is evaluated only when the guard [g]
    holds, as [&&] short-circuits. *)
Definition guarded_eq (g : bool) (b : byte) (m : list byte) (p : Z)
  : option bool :=
  if g then x <- index m p ;; ret (Byte.eqb b x) else ret false.

(** Lines 125-133: the matcher of [LineComment]. *)
Definition line_matcher (l : Commenter) (b : byte) (st : Scan) : option Scan :=
  let lc := LineComment l in
  c <- guarded_eq (inComment st =? 0) b lc (lp st) ;;
  if c then
    let st := set_lp (incr (lp st)) st in
    if lp st =? len lc
    then ret (set_lp 0 (set_inLComment true st))
    else ret st
  else ret (set_lp 0 st).

(** Lines 134-145: the matcher of [StartComment]. *)
Definition start_matcher (l : Commenter) (b : byte) (st : Scan) : option Scan :=
  let sc := StartComment l in
  c <- guarded_eq (negb (inLComment st)) b sc (sp st) ;;
  if c then
    let st := set_sp (incr (sp st)) st in
    if sp st =? len sc
    then
      let st := set_inComment (incr (inComment st)) st in
      let st := if (inComment st >? 1) && negb (Nesting l)
                then set_inComment 1 st else st in
      ret (set_sp 0 st)
    else ret st
  else ret (set_sp 0 st).

(** Lines 146-156: the matcher of [EndComment]. *)
Definition end_matcher (l : Commenter) (b : byte) (st : Scan) : option Scan :=
  let ec := EndComment l in
  c <- guarded_eq (negb (inLComment st) && (inComment st >? 0)) b ec (ep st) ;;
  if c then
    let st := set_ep (incr (ep st)) st in
    if ep st =? len ec
    then
      let st := if inComment st >? 0
                then set_inComment (decr (inComment st)) st else st in
      ret (set_ep 0 st)
    else ret st
  else ret (set_ep 0 st).

(** Lines 158-160: a byte other than space, tab, newline and carriage
    return makes the line non-blank. *)
Definition is_space (b : byte) : bool :=
  Byte.eqb b SPACE || Byte.eqb b TAB || Byte.eqb b NL || Byte.eqb b CR.

Definition track_blank (b : byte) (st : Scan) : Scan :=
  if negb (is_space b) then set_blank false st else st.

(** Lines 165-177: what a newline byte does. *)
Definition finalize_line (st : Scan) : Scan :=
  let st := set_stats (incr_TotalLines (stats st)) st in
  let st :=
    if (inComment st >? 0) || inLComment st then
      let st := set_inLComment false st in
      set_stats (incr_CommentLines (stats st)) st
    else if blank st then
      set_stats (incr_BlankLines (stats st)) st
    else
      set_stats (incr_CodeLines (stats st)) st in
  set_blank true st.

(** The body of the loop, for one byte [b]. *)
Definition step (l : Commenter) (st : Scan) (b : byte) : option Scan :=
  st <- line_matcher l b st ;;
  st <- start_matcher l b st ;;
  st <- end_matcher l b st ;;
  let st := track_blank b st in
  ret (if Byte.eqb b NL then finalize_line st else st).

(** [for _, b := range c]. *)
Fixpoint scan (l : Commenter) (st : Scan) (c : list byte) : option Scan :=
  match c with
  | [] => ret st
  | b :: c' => st' <- step l st b ;; scan l st' c'
  end.

(** The state in which the loop is entered, [s.FileCount++] done. *)
Definition start (s : Stats) : Scan :=
  mkScan 0 false true 0 0 0 (incr_FileCount s).

(** [Language.Update]: the [Stats] behind [s] afterwards.  Of the
    [Language] the method reads the embedded [Commenter] only. *)
Definition Update (l : Commenter) (c : list byte) (s : Stats) : option Stats :=
  st <- scan l (start s) c ;; ret (stats st).

(** [Stats{}], the counters of a language seen for the first time. *)
Definition zero_Stats : Stats := mkStats 0 0 0 0 0.

(** The states after each byte of [c], in order. *)
Fixpoint trace (l : Commenter) (st : Scan) (c : list byte)
  : option (list Scan) :=
  match c with
  | [] => ret []
  | b :: c' =>
      st' <- step l st b ;; t <- trace l st' c' ;; ret (st' :: t)
  end.

(** The value of [inComment] after each byte of a scan of [c]. *)
Definition depths (l : Commenter) (c : list byte) : option (list Z) :=
  t <- trace l (start zero_Stats) c ;; ret (map inComment t).

(** ** Notions used by the statements *)

(** A Go string that can be indexed at 0: it is not empty, and its
    length is an [int], as the length of every Go string is. *)
Definition go_marker (m : list byte) : Prop := 0 < len m <= max_int.

Definition wf_Commenter (l : Commenter) : Prop :=
  go_marker (LineComment l) /\ go_marker (StartComment l) /\
  go_marker (EndComment l).

Definition cursor_ok (m : list byte) (p : Z) : Prop := 0 <= p < len m.

Definition cursors_ok (l : Commenter) (st : Scan) : Prop :=
  cursor_ok (LineComment l) (lp st) /\ cursor_ok (StartComment l) (sp st) /\
  cursor_ok (EndComment l) (ep st).

(** The innermost branch of a matcher ([p == len(m)] after [p++]) is
    reached: the marker [m] has been matched completely. *)
Definition completes (g : bool) (b : byte) (m : list byte) (p : Z) : bool :=
  match guarded_eq g b m p with
  | Some true => incr p =? len m
  | _ => false
  end.

Definition line_completes (l : Commenter) (b : byte) (st : Scan) : bool :=
  completes (inComment st =? 0) b (LineComment l) (lp st).

Definition start_completes (l : Commenter) (b : byte) (st : Scan) : bool :=
  completes (negb (inLComment st)) b (StartComment l) (sp st).

Definition end_completes (l : Commenter) (b : byte) (st : Scan) : bool :=
  completes (negb (inLComment st) && (inComment st >? 0)) b
            (EndComment l) (ep st).

(** The cursor a matcher leaves behind. *)
Definition next_cursor (g : bool) (b : byte) (m : list byte) (p : Z) : Z :=
  match guarded_eq g b m p with
  | Some true => if incr p =? len m then 0 else incr p
  | _ => 0
  end.

(** The number of newline bytes of an input. *)
Definition count_nl (c : list byte) : nat := count_occ byte_eq_dec c NL.

(** [n] times [++]. *)
Definition add_lines (n : nat) (z : Z) : Z := Nat.iter n incr z.

(** [s] after [k] more code lines, [m] more comment lines and [b] more
    blank lines. *)
Definition tally (k m b : nat) (s : Stats) : Stats :=
  mkStats (FileCount s)
          (add_lines (k + m + b) (TotalLines s))
          (add_lines k (CodeLines s))
          (add_lines b (BlankLines s))
          (add_lines m (CommentLines s)).

(** [code + comment + blank == total], evaluated by Go. *)
Definition partition (s : Stats) : Prop :=
  wrap (CodeLines s + CommentLines s + BlankLines s) = TotalLines s.

(** Descriptors with the marker ["ab"], whose first byte can follow a
    partial match, in each of the three places. *)
Definition abLine := mkCommenter (bytes "ab") nul nul false.
Definition abStart := mkCommenter nul (bytes "ab") (bytes "}") false.
Definition abEnd := mkCommenter nul (bytes "{") (bytes "ab") false.

(** A C-style descriptor that honours nesting. *)
Definition cNesting := mkCommenter (bytes "//") (bytes "/*") (bytes "*/") true.

(** An input followed by a newline byte. *)
Definition line (s : string) : list byte := bytes s ++ [NL].

(** The block comment stays open during the scan of [c] from [st]: the
    depth is positive after each byte. *)
Definition stays_open (l : Commenter) (st : Scan) (c : list byte) : bool :=
  match trace l st c with
  | Some t => forallb (fun s => inComment s >? 0) t
  | None => false
  end.

(** ** The order of the report: [LData.Less] *)

Module Report.

Record LResult : Type := mkLResult {
  Name : list byte;
  FileCount : Z;
  CodeLines : Z;
  CommentLines : Z;
  BlankLines : Z;
  TotalLines : Z
}.

Definition LData : Type := list LResult.

(** [a < b] on Go strings: bytewise, a proper prefix being smaller. *)
Fixpoint string_lt (a b : list byte) : bool :=
  match a, b with
  | _, [] => false
  | [], _ :: _ => true
  | x :: a', y :: b' =>
      if (Byte.to_N x <? Byte.to_N y)%N then true
      else if (Byte.to_N y <? Byte.to_N x)%N then false
      else string_lt a' b'
  end.

(** [a > b] on Go strings. *)
Definition string_gt (a b : list byte) : bool := string_lt b a.

(** Lines 291-296. *)
Definition Less (d : LData) (i j : Z) : option bool :=
  x <- index d i ;;
  y <- index d j ;;
  if CodeLines x =? CodeLines y
  then ret (string_gt (Name x) (Name y))
  else ret (CodeLines x >? CodeLines y).

(** What [sort.Sort] leaves behind: no row is [Less] than a row
    before it. *)
Definition sorted (d : LData) : Prop :=
  forall i j, 0 <= i -> i < j -> j < len d -> Less d j i = Some false.

(** [a] is lexicographically greater than [b]: at the first byte
    where they differ [a] has the greater one, or [b] is a proper
    prefix of [a]. *)
Definition lex_gt (a b : list byte) : Prop :=
  (exists p x y a' b',
      a = p ++ x :: a' /\ b = p ++ y :: b' /\
      (Byte.to_N y < Byte.to_N x)%N) \/
  (exists t, t <> [] /\ a = b ++ t).

End Report.

(** A report of two languages and the row of totals, in sorted order. *)
Definition example_report : Report.LData :=
  [ Report.mkLResult (bytes "Total") 3 20 4 2 26;
    Report.mkLResult (bytes "Go") 2 10 3 1 14;
    Report.mkLResult (bytes "C") 1 10 1 1 12 ].

(** ** The other methods of the report: [Len], [Swap], [Add] *)

(** [m[i] = x] of Go: a panic when [i] is out of range. *)
Fixpoint set_nth {A : Type} (m : list A) (n : nat) (x : A) : list A :=
  match m, n with
  | [], _ => []
  | _ :: t, O => x :: t
  | y :: t, S n' => y :: set_nth t n' x
  end.

Definition store {A : Type} (m : list A) (i : Z) (x : A) : option (list A) :=
  if (i <? 0) || (len m <=? i) then None
  else Some (set_nth m (Z.to_nat i) x).

Module Rows.

(** Line 289. *)
Definition Len (d : Report.LData) : Z := len d.

(** Lines 298-300: [d[i], d[j] = d[j], d[i]].  Both right-hand sides
    are read first, then [d[i]] and [d[j]] are written in this order. *)
Definition Swap (d : Report.LData) (i j : Z) : option Report.LData :=
  x <- index d j ;;
  y <- index d i ;;
  d <- store d i x ;;
  store d j y.

(** Lines 311-317: [r.Add(a)], the row behind [r] afterwards. *)
Definition Add (r a : Report.LResult) : Report.LResult :=
  Report.mkLResult
    (Report.Name r)
    (wrap (Report.FileCount r + Report.FileCount a))
    (wrap (Report.CodeLines r + Report.CodeLines a))
    (wrap (Report.CommentLines r + Report.CommentLines a))
    (wrap (Report.BlankLines r + Report.BlankLines a))
    (wrap (Report.TotalLines r + Report.TotalLines a)).

(** Line 334: the row of the language [n] with the counters [i]. *)
Definition row (n : list byte) (i : Stats) : Report.LResult :=
  Report.mkLResult n (FileCount i) (CodeLines i) (CommentLines i)
                   (BlankLines i) (TotalLines i).

(** Lines 331-332: [&LResult{}] with the name [Total]. *)
Definition total0 : Report.LResult :=
  Report.mkLResult (bytes "Total") 0 0 0 0 0.

(** Lines 333-337: the loop over the map, which visits its entries in
    the order [it]; the rows collected and the totals. *)
Fixpoint collect (it : list (list byte * Stats))
         (d : Report.LData) (total : Report.LResult)
  : Report.LData * Report.LResult :=
  match it with
  | [] => (d, total)
  | (n, i) :: it' =>
      let r := row n i in
      collect it' (d ++ [r]) (Add total r)
  end.

(** Lines 330-338 of [printInfo]: the rows handed to [sort.Sort]. *)
Definition rows (it : list (list byte * Stats)) : Report.LData :=
  let '(d, total) := collect it [] total0 in
  d ++ [total].

(** The comparison that [Less] makes between two rows. *)
Definition less (x y : Report.LResult) : bool :=
  if Report.CodeLines x =? Report.CodeLines y
  then Report.string_gt (Report.Name x) (Report.Name y)
  else Report.CodeLines x >? Report.CodeLines y.

(** [code + comment + blank == total] on a row, evaluated by Go. *)
Definition partition (r : Report.LResult) : Prop :=
  wrap (Report.CodeLines r + Report.CommentLines r + Report.BlankLines r)
  = Report.TotalLines r.

End Rows.

(** ** Bytes that cannot complete a marker *)

(** The last byte of a marker, the one that completes a match. *)
Definition last_byte (m : list byte) : option byte := index m (len m - 1).

(** No byte of [c] is the last byte of [m]. *)
Definition avoids (m : list byte) (c : list byte) : bool :=
  match last_byte m with
  | Some x => negb (existsb (Byte.eqb x) c)
  | None => true
  end.


(** The sum of a counter over the entries of the map. *)
Definition sum_over (f : Stats -> Z) (it : list (list byte * Stats)) : Z :=
  fold_right (fun e acc => f (snd e) + acc) 0 it.


(** ** Languages: [Namer], [Matcher], [mExt], [mName], the table *)

(** [a == b] on Go strings. *)
Definition bytes_eqb (a b : list byte) : bool :=
  if list_eq_dec byte_eq_dec a b then true else false.

(** Lines 106-110: a [Language] embeds a [Namer], a [Matcher] and a
    [Commenter]. *)
Record Language : Type := mkLanguage {
  lNamer : list byte;
  lMatcher : list byte -> bool;
  lCommenter : Commenter
}.

(** Line 183. *)
Definition Name (l : Language) : list byte := lNamer l.

(** Line 187. *)
Definition Match (l : Language) (fname : list byte) : bool :=
  lMatcher l fname.

(** Lines 189-198.  [Ext] stands for the library function [path.Ext]. *)
Definition mExt (Ext : list byte -> list byte) (exts : list string)
  : list byte -> bool :=
  fun fname => existsb (fun ext => bytes_eqb (bytes ext) (Ext fname)) exts.

(** Lines 200-209.  [Base] stands for the library function
    [path.Base]. *)
Definition mName (Base : list byte -> list byte) (names : list string)
  : list byte -> bool :=
  fun fname => existsb (fun name => bytes_eqb (bytes name) (Base fname)) names.

(** Lines 18-76. *)
Definition languages (Ext Base : list byte -> list byte) : list Language :=
  let L (n : string) (m : list byte -> bool) (c : Commenter) :=
    mkLanguage (bytes n) m c in
  let mExt := mExt Ext in
  let mName := mName Base in
  ([ L "Thrift" (mExt [".thrift"]) cComments;
    L "C" (mExt [".c"; ".h"]) cComments;
    L "C++" (mExt [".cc"; ".cpp"; ".cxx"; ".hh"; ".hpp"; ".hxx"]) cComments;
    L "C#" (mExt [".cs"]) cComments;
    L "Go" (mExt [".go"]) cComments;
    L "GoTest" (mExt [".go"]) cComments;
    L "Rust" (mExt [".rs"; ".rc"]) cComments;
    L "Scala" (mExt [".scala"]) cComments;
    L "Java" (mExt [".java"]) cComments;
    L "Typescript" (mExt [".ts"]) cComments;
    L "YACC" (mExt [".y"]) cComments;
    L "Lex" (mExt [".l"]) cComments;
    L "Lua" (mExt [".lua"]) luaComments;
    L "SQL" (mExt [".sql"]) sqlComments;
    L "Haskell" (mExt [".hs"; ".lhs"]) hsComments;
    L "ML" (mExt [".ml"; ".mli"]) mlComments;
    L "Perl" (mExt [".pl"; ".pm"]) perlComments;
    L "PHP" (mExt [".php"]) cComments;
    L "Shell" (mExt [".sh"]) shComments;
    L "Bash" (mExt [".bash"]) shComments;
    L "R" (mExt [".r"; ".R"]) shComments;
    L "Tcl" (mExt [".tcl"]) shComments;
    L "MATLAB" (mExt [".m"]) matlabComments;
    L "Ruby" (mExt [".rb"]) rubyComments;
    L "Python" (mExt [".py"]) pyComments;
    L "Assembly" (mExt [".asm"; ".s"]) semiComments;
    L "Lisp" (mExt [".lsp"; ".lisp"]) semiComments;
    L "Scheme" (mExt [".scm"; ".scheme"]) semiComments;
    L "Make" (mName ["makefile"; "Makefile"; "MAKEFILE"]) shComments;
    L "CMake" (mName ["CMakeLists.txt"]) shComments;
    L "Jam" (mName ["Jamfile"; "Jamrules"]) shComments;
    L "Markdown" (mExt [".md"]) noComments;
    L "HAML" (mExt [".haml"]) noComments;
    L "SASS" (mExt [".sass"]) cssComments;
    L "SCSS" (mExt [".scss"]) cssComments;
    L "HTML" (mExt [".htm"; ".html"; ".xhtml"]) xmlComments;
    L "XML" (mExt [".xml"]) xmlComments;
    L "CSS" (mExt [".css"]) cssComments;
    L "JavaScript" (mExt [".js"]) cComments;
    L "TypeScript" (mExt [".ts"]) cComments;
    L "CoffeeScript" (mExt [".coffee"]) coffeeComments;
    L "Erlang" (mExt [".erl"]) erlangComments ])%string.

(** ** The map [info] and the handling of one file *)

(** The map from the names of languages to their counters.  Each key
    owns the [Stats] its pointer leads to, so the map is modelled by
    value: a list of entries with distinct keys.  The order in which Go
    visits the entries is not the order of this list (see [Rows.rows],
    which takes the order of the visit). *)
Definition Info : Type := list (list byte * Stats).

(** [info[k]]. *)
Fixpoint info_get (info : Info) (k : list byte) : option Stats :=
  match info with
  | [] => None
  | (k', v) :: t => if bytes_eqb k k' then Some v else info_get t k
  end.

(** [info[k] = v]. *)
Fixpoint info_set (info : Info) (k : list byte) (v : Stats) : Info :=
  match info with
  | [] => [(k, v)]
  | (k', v') :: t =>
      if bytes_eqb k k' then (k, v) :: t else (k', v') :: info_set t k v
  end.

(** Lines 221-234.  [read] stands for [ioutil.ReadFile]: [None] when
    it returns an error.  The entry of the language is created before
    the file is read; [Update] then writes through the pointer held by
    the map. *)
Definition handleFileLang (read : list byte -> option (list byte))
           (fname : list byte) (l : Language) (info : Info) : option Info :=
  let '(i, info) :=
    match info_get info (Name l) with
    | Some i => (i, info)
    | None => (zero_Stats, info_set info (Name l) zero_Stats)
    end in
  match read fname with
  | None => ret info
  | Some c =>
      i <- Update (lCommenter l) c i ;;
      ret (info_set info (Name l) i)
  end.

(** [strings.HasSuffix] of the library. *)
Definition HasSuffix (s suffix : list byte) : bool :=
  (List.length suffix <=? List.length s)%nat &&
  bytes_eqb (skipn (List.length s - List.length suffix) s) suffix.

(** Lines 238-246: the body of the loop of [handleFile]. *)
Definition handleFile_body (read : list byte -> option (list byte))
           (fname : list byte) (lang : Language) (info : Info) : option Info :=
  if Match lang fname then
    if negb (bytes_eqb (Name lang) (bytes "GoTest"))
       || HasSuffix fname (bytes "_test.go")
    then handleFileLang read fname lang info
    else ret info
  else ret info.

Fixpoint handleFile_loop (read : list byte -> option (list byte))
         (fname : list byte) (langs : list Language) (info : Info)
  : option Info :=
  match langs with
  | [] => ret info
  | lang :: langs' =>
      info <- handleFile_body read fname lang info ;;
      handleFile_loop read fname langs' info
  end.

(** Lines 236-249. *)
Definition handleFile (Ext Base : list byte -> list byte)
           (read : list byte -> option (list byte))
           (fname : list byte) (info : Info) : option Info :=
  handleFile_loop read fname (languages Ext Base) info.

(** Lines 378-380 of [main]: every file found is handled in turn. *)
Fixpoint handleFiles (Ext Base : list byte -> list byte)
         (read : list byte -> option (list byte))
         (files : list (list byte)) (info : Info) : option Info :=
  match files with
  | [] => ret info
  | f :: files' =>
      info <- handleFile Ext Base read f info ;;
      handleFiles Ext Base read files' info
  end.

(** The language [lang] is counted for the file [fname]. *)
Definition applies (lang : Language) (fname : list byte) : bool :=
  Match lang fname &&
  (negb (bytes_eqb (Name lang) (bytes "GoTest"))
   || HasSuffix fname (bytes "_test.go")).

(** The counters of a language, fresh when the map has none. *)
Definition counters (info : Info) (k : list byte) : Stats :=
  match info_get info k with
  | Some i => i
  | None => zero_Stats
  end.

(** [path.Ext] of the library, after its documentation: the suffix
    from the last dot of the last element of the path, empty when that
    element has no dot. *)
Fixpoint path_Ext_scan (r acc : list byte) : list byte :=
  match r with
  | [] => []
  | b :: r' =>
      if Byte.eqb b "/"%byte then []
      else if Byte.eqb b "."%byte then b :: acc
      else path_Ext_scan r' (b :: acc)
  end.

Definition path_Ext (p : list byte) : list byte := path_Ext_scan (rev p) [].

(** ** The walk over the file system: [add] *)

(** What [os.Stat] and [ioutil.ReadDir] answer along the paths that
    [add] builds: no answer from [Stat], a regular file, a file of
    another kind, or a directory with its entries ([None] when
    [ReadDir] fails). *)
#[warnings="-register-all"]
Inductive Node : Type :=
| NoStat : Node
| Regular : Node
| Special : Node
| Dir : option (list (list byte * Node)) -> Node.

(** Lines 253-285, with the slice [files] passed along.  [Join] stands
    for [path.Join]. *)
Fixpoint add (Join : list byte -> list byte -> list byte)
         (n : list byte) (node : Node) (files : list (list byte))
         {struct node} : option (list (list byte)) :=
  match node with
  | NoStat => ret files
  | Dir None => ret files
  | Dir (Some fs) =>
      if existsb (fun f => bytes_eqb (fst f) (bytes ".nosloc")) fs
      then ret files
      else
        (fix loop (fs : list (list byte * Node)) (files : list (list byte))
           : option (list (list byte)) :=
           match fs with
           | [] => ret files
           | (name, child) :: fs' =>
               c <- index name 0 ;;
               files <- (if negb (Byte.eqb c "."%byte)
                         then add Join (Join n name) child files
                         else ret files) ;;
               loop fs' files
           end) fs files
  | Regular => ret (files ++ [n])
  | Special => ret files
  end.

(** The loop over the entries of a directory, by itself. *)
Fixpoint add_entries (Join : list byte -> list byte -> list byte)
         (n : list byte) (fs : list (list byte * Node))
         (files : list (list byte)) : option (list (list byte)) :=
  match fs with
  | [] => ret files
  | (name, child) :: fs' =>
      c <- index name 0 ;;
      files <- (if negb (Byte.eqb c "."%byte)
                then add Join (Join n name) child files
                else ret files) ;;
      add_entries Join n fs' files
  end.

(** The path [p] is that of a regular file below (or at) the node at
    [n], reached through directories without a [.nosloc] entry and
    through entries whose names do not start with a dot. *)
Inductive visible (Join : list byte -> list byte -> list byte)
  : list byte -> Node -> list byte -> Prop :=
| visible_file n : visible Join n Regular n
| visible_entry n fs name child c p :
    existsb (fun f => bytes_eqb (fst f) (bytes ".nosloc")) fs = false ->
    In (name, child) fs ->
    index name 0 = Some c -> c <> "."%byte ->
    visible Join (Join n name) child p ->
    visible Join n (Dir (Some fs)) p.


(** The strings of a list are pairwise different. *)
Fixpoint distinct (l : list (list byte)) : bool :=
  match l with
  | [] => true
  | x :: t => negb (existsb (bytes_eqb x) t) && distinct t
  end.


(** Every entry below the node has a name that is not empty, as the
    entries of a directory have. *)
Fixpoint well_named (node : Node) : bool :=
  match node with
  | Dir (Some fs) =>
      (fix all (fs : list (list byte * Node)) : bool :=
         match fs with
         | [] => true
         | (name, child) :: fs' =>
             negb (bytes_eqb name []) && well_named child && all fs'
         end) fs
  | _ => true
  end.


(** The contents of the files that are counted under [lang]: those the
    language applies to and that can be read. *)
Definition counted_contents (lang : Language)
           (read : list byte -> option (list byte))
           (files : list (list byte)) : list (list byte) :=
  flat_map (fun f =>
              if applies lang f
              then match read f with Some c => [c] | None => [] end
              else []) files.

(** A small tree of files, and a joining of paths with a slash. *)
Definition example_Join (a b : list byte) : list byte :=
  a ++ "/"%byte :: b.

Definition example_tree : Node :=
  Dir (Some
    [ (bytes "a.go", Regular);
      (bytes ".git", Dir (Some [(bytes "config", Regular)]));
      (bytes "vendor",
        Dir (Some [(bytes "v.go", Regular); (bytes ".nosloc", Regular)]));
      (bytes "dev", Special);
      (bytes "sub", Dir (Some [(bytes "b.c", Regular)])) ]).


(** [Update] applied to the contents [cs] in turn, on the same
    counters. *)
Definition Updates (l : Commenter) (cs : list (list byte)) (s : Stats)
  : option Stats :=
  fold_left (fun acc c => s <- acc ;; Update l c s) cs (Some s).


(** ** Arithmetic of Go integers *)

Module GoIntFacts.

Lemma half_eq : half = 9223372036854775808.
Proof. reflexivity. Qed.

Lemma modulus_eq : modulus = 2 * half.
Proof. reflexivity. Qed.

Lemma max_int_eq : max_int = 9223372036854775807.
Proof. reflexivity. Qed.

Lemma wrap_in_range z : in_range (wrap z).
Proof.
  unfold in_range, wrap, min_int, max_int.
  pose proof (Z.mod_pos_bound (z + half) modulus) as H.
  rewrite modulus_eq, half_eq in *. lia.
Qed.

Lemma wrap_small z : in_range z -> wrap z = z.
Proof.
  unfold in_range, wrap, min_int, max_int. intros H.
  rewrite Z.mod_small; [lia|].
  rewrite modulus_eq, half_eq in *. lia.
Qed.

Lemma wrap_idem z : wrap (wrap z) = wrap z.
Proof. apply wrap_small, wrap_in_range. Qed.

Lemma wrap_add_l a b : wrap (wrap a + b) = wrap (a + b).
Proof.
  unfold wrap.
  replace ((a + half) mod modulus - half + b + half)
    with ((a + half) mod modulus + b) by lia.
  replace (a + b + half) with ((a + half) + b) by lia.
  rewrite Z.add_mod_idemp_l; [reflexivity|].
  rewrite modulus_eq, half_eq. lia.
Qed.

Lemma wrap_add_r a b : wrap (a + wrap b) = wrap (a + b).
Proof. rewrite Z.add_comm, wrap_add_l. f_equal. lia. Qed.

Lemma incr_small z : min_int <= z < max_int -> incr z = z + 1.
Proof. intros H. apply wrap_small. unfold in_range. lia. Qed.

Lemma decr_small z : min_int < z <= max_int -> decr z = z - 1.
Proof. intros H. apply wrap_small. unfold in_range. lia. Qed.

End GoIntFacts.

Import GoIntFacts.

(** ** Indexing and the shared shape of the three matchers *)

Lemma index_Some_iff {A : Type} (m : list A) (p : Z) :
  (exists x, index m p = Some x) <-> 0 <= p < len m.
Proof.
  unfold index, len. destruct (Z.ltb_spec p 0) as [Hneg | Hpos].
  - split; [intros [x Hx]; discriminate | lia].
  - split.
    + intros [x Hx].
      assert (Hlt : (Z.to_nat p < List.length m)%nat)
        by (apply nth_error_Some; congruence).
      lia.
    + intros Hp.
      destruct (nth_error m (Z.to_nat p)) as [x |] eqn:E; [eauto |].
      apply nth_error_None in E. lia.
Qed.

Lemma index_nul_Some (p : Z) (x : byte) : index nul p = Some x -> x = NUL.
Proof.
  unfold index, nul. destruct (p <? 0); [discriminate |].
  destruct (Z.to_nat p) as [| [| n]]; simpl; congruence.
Qed.

Lemma guarded_eq_total g b m p :
  cursor_ok m p -> exists c, guarded_eq g b m p = Some c.
Proof.
  intros Hp. unfold guarded_eq. destruct g; [| unfold ret; eauto].
  apply index_Some_iff in Hp. destruct Hp as [x ->]. simpl. unfold ret. eauto.
Qed.

Lemma guarded_eq_true g b m p :
  guarded_eq g b m p = Some true -> g = true /\ index m p = Some b.
Proof.
  unfold guarded_eq. destruct g; [| discriminate].
  destruct (index m p) as [x |]; simpl; [| discriminate].
  unfold ret. intros H. injection H as H.
  apply byte_dec_bl in H. subst. auto.
Qed.

Lemma guarded_eq_mismatch g b m p x :
  index m p = Some x -> b <> x -> guarded_eq g b m p = Some false.
Proof.
  intros Hx Hb. unfold guarded_eq. destruct g; [| reflexivity].
  rewrite Hx. simpl. unfold ret. f_equal.
  destruct (Byte.eqb b x) eqn:E; [| reflexivity].
  apply byte_dec_bl in E. contradiction.
Qed.

Lemma next_cursor_ok g b m p :
  go_marker m -> cursor_ok m p -> cursor_ok m (next_cursor g b m p).
Proof.
  unfold go_marker, cursor_ok, next_cursor. intros Hm Hp.
  destruct (guarded_eq g b m p) as [[|] |]; try lia.
  assert (Hi : incr p = p + 1).
  { apply incr_small. unfold min_int. rewrite half_eq. lia. }
  rewrite Hi. destruct (Z.eqb_spec (p + 1) (len m)); lia.
Qed.

Lemma completes_true g b m p :
  completes g b m p = true ->
  g = true /\ index m p = Some b /\ incr p = len m.
Proof.
  unfold completes.
  destruct (guarded_eq g b m p) as [[|] |] eqn:E; try discriminate.
  intros H. apply guarded_eq_true in E. apply Z.eqb_eq in H. tauto.
Qed.

Lemma completes_next_cursor g b m p :
  completes g b m p = true -> next_cursor g b m p = 0.
Proof.
  unfold completes, next_cursor.
  destruct (guarded_eq g b m p) as [[|] |]; try discriminate.
  intros ->. reflexivity.
Qed.

(** ** What each matcher computes *)

Lemma line_matcher_Some l b st st' :
  line_matcher l b st = Some st' ->
  st' = set_lp (next_cursor (inComment st =? 0) b (LineComment l) (lp st))
          (set_inLComment (inLComment st || line_completes l b st) st).
Proof.
  unfold line_matcher, line_completes, completes, next_cursor, bind.
  destruct (guarded_eq (inComment st =? 0) b (LineComment l) (lp st))
    as [[|] |]; try discriminate;
    destruct st as [d il bl p1 p2 p3 s]; simpl; unfold ret.
  - destruct (incr p1 =? len (LineComment l));
      intros H; injection H as <-; unfold set_lp, set_inLComment; simpl;
      rewrite ?orb_true_r, ?orb_false_r; reflexivity.
  - intros H; injection H as <-. unfold set_lp, set_inLComment; simpl.
    rewrite orb_false_r. reflexivity.
Qed.

Lemma start_matcher_Some l b st st' :
  start_matcher l b st = Some st' ->
  st' = set_sp (next_cursor (negb (inLComment st)) b (StartComment l) (sp st))
          (set_inComment
             (if start_completes l b st
              then if (incr (inComment st) >? 1) && negb (Nesting l)
                   then 1 else incr (inComment st)
              else inComment st) st).
Proof.
  unfold start_matcher, start_completes, completes, next_cursor, bind.
  destruct (guarded_eq (negb (inLComment st)) b (StartComment l) (sp st))
    as [[|] |]; try discriminate;
    destruct st as [d il bl p1 p2 p3 s]; simpl; unfold ret.
  - destruct (incr p2 =? len (StartComment l)).
    + destruct ((incr d >? 1) && negb (Nesting l));
        intros H; injection H as <-; reflexivity.
    + intros H; injection H as <-; reflexivity.
  - intros H; injection H as <-. reflexivity.
Qed.

Lemma end_matcher_Some l b st st' :
  end_matcher l b st = Some st' ->
  st' = set_ep (next_cursor (negb (inLComment st) && (inComment st >? 0)) b
                  (EndComment l) (ep st))
          (set_inComment
             (if end_completes l b st
              then decr (inComment st) else inComment st) st).
Proof.
  unfold end_matcher, end_completes, completes, next_cursor, bind.
  destruct (guarded_eq (negb (inLComment st) && (inComment st >? 0)) b
              (EndComment l) (ep st)) as [[|] |] eqn:E; try discriminate;
    destruct st as [d il bl p1 p2 p3 s]; simpl in *; unfold ret.
  - apply guarded_eq_true in E. destruct E as [E _].
    apply andb_true_iff in E. destruct E as [_ E].
    destruct (incr p3 =? len (EndComment l)).
    + rewrite E. intros H; injection H as <-; reflexivity.
    + intros H; injection H as <-; reflexivity.
  - intros H; injection H as <-. reflexivity.
Qed.

Lemma line_matcher_total l b st :
  cursor_ok (LineComment l) (lp st) -> exists st', line_matcher l b st = Some st'.
Proof.
  intros Hp. unfold line_matcher, bind.
  destruct (guarded_eq_total (inComment st =? 0) b _ _ Hp) as [c ->].
  destruct c; [destruct (_ =? _) |]; unfold ret; eauto.
Qed.

Lemma start_matcher_total l b st :
  cursor_ok (StartComment l) (sp st) ->
  exists st', start_matcher l b st = Some st'.
Proof.
  intros Hp. unfold start_matcher, bind.
  destruct (guarded_eq_total (negb (inLComment st)) b _ _ Hp) as [c ->].
  destruct c; [destruct (_ =? _) |]; unfold ret; eauto.
Qed.

Lemma end_matcher_total l b st :
  cursor_ok (EndComment l) (ep st) -> exists st', end_matcher l b st = Some st'.
Proof.
  intros Hp. unfold end_matcher, bind.
  destruct (guarded_eq_total (negb (inLComment st) && (inComment st >? 0))
              b _ _ Hp) as [c ->].
  destruct c; [destruct (_ =? _) |]; unfold ret; eauto.
Qed.

(** ** One iteration of the loop *)

Lemma step_Some l st b st' :
  step l st b = Some st' ->
  exists st1 st2 st3,
    line_matcher l b st = Some st1 /\
    start_matcher l b st1 = Some st2 /\
    end_matcher l b st2 = Some st3 /\
    st' = (if Byte.eqb b NL then finalize_line (track_blank b st3)
           else track_blank b st3).
Proof.
  unfold step, bind, ret.
  destruct (line_matcher l b st) as [st1 |] eqn:E1; [| discriminate].
  destruct (start_matcher l b st1) as [st2 |] eqn:E2; [| discriminate].
  destruct (end_matcher l b st2) as [st3 |] eqn:E3; [| discriminate].
  intros H. injection H as <-. exists st1, st2, st3. auto.
Qed.

Lemma finalize_line_fields st :
  inComment (finalize_line st) = inComment st /\
  inLComment (finalize_line st) =
    (if (inComment st >? 0) || inLComment st then false else inLComment st) /\
  blank (finalize_line st) = true /\
  lp (finalize_line st) = lp st /\
  sp (finalize_line st) = sp st /\
  ep (finalize_line st) = ep st.
Proof.
  unfold finalize_line. destruct st as [d il bl p1 p2 p3 s]. simpl.
  destruct ((d >? 0) || il); [| destruct bl]; simpl; repeat split.
Qed.

Lemma tally_000 s : tally 0 0 0 s = s.
Proof. destruct s; reflexivity. Qed.

Lemma finalize_line_stats st :
  stats (finalize_line st) =
    if (inComment st >? 0) || inLComment st then tally 0 1 0 (stats st)
    else if blank st then tally 0 0 1 (stats st)
    else tally 1 0 0 (stats st).
Proof.
  unfold finalize_line. destruct st as [d il bl p1 p2 p3 s]. simpl.
  destruct ((d >? 0) || il); [| destruct bl]; simpl; destruct s; reflexivity.
Qed.

Lemma track_blank_fields b st :
  inComment (track_blank b st) = inComment st /\
  inLComment (track_blank b st) = inLComment st /\
  blank (track_blank b st) = blank st && is_space b /\
  lp (track_blank b st) = lp st /\
  sp (track_blank b st) = sp st /\
  ep (track_blank b st) = ep st /\
  stats (track_blank b st) = stats st.
Proof.
  unfold track_blank. destruct (is_space b); simpl;
    rewrite ?andb_true_r, ?andb_false_r; auto 10.
Qed.

Ltac step_inv H :=
  let st1 := fresh "st1" in
  let st2 := fresh "st2" in
  let st3 := fresh "st3" in
  let H1 := fresh "Hline" in
  let H2 := fresh "Hstart" in
  let H3 := fresh "Hend" in
  apply step_Some in H;
  destruct H as (st1 & st2 & st3 & H1 & H2 & H3 & H);
  apply line_matcher_Some in H1;
  apply start_matcher_Some in H2;
  apply end_matcher_Some in H3.

Lemma step_total l st b :
  wf_Commenter l -> cursors_ok l st ->
  exists st', step l st b = Some st' /\ cursors_ok l st'.
Proof.
  intros (Hl & Hs & He) (Hlp & Hsp & Hep).
  destruct (line_matcher_total l b st Hlp) as [st1 H1].
  pose proof (line_matcher_Some _ _ _ _ H1) as E1.
  assert (Hsp1 : cursor_ok (StartComment l) (sp st1)) by (subst st1; exact Hsp).
  destruct (start_matcher_total l b st1 Hsp1) as [st2 H2].
  pose proof (start_matcher_Some _ _ _ _ H2) as E2.
  assert (Hep2 : cursor_ok (EndComment l) (ep st2))
    by (subst st2 st1; exact Hep).
  destruct (end_matcher_total l b st2 Hep2) as [st3 H3].
  pose proof (end_matcher_Some _ _ _ _ H3) as E3.
  unfold step, bind. rewrite H1, H2, H3. unfold ret.
  eexists; split; [reflexivity |].
  assert (Hok : cursors_ok l st3).
  { unfold cursors_ok. rewrite E3, E2, E1. simpl.
    repeat split; apply next_cursor_ok; assumption. }
  destruct Hok as (A & B & C).
  pose proof (track_blank_fields b st3) as (_ & _ & _ & T1 & T2 & T3 & _).
  pose proof (finalize_line_fields (track_blank b st3))
    as (_ & _ & _ & F1 & F2 & F3).
  unfold cursors_ok.
  destruct (Byte.eqb b NL); rewrite ?F1, ?F2, ?F3, ?T1, ?T2, ?T3; auto.
Qed.

(** ** The whole loop *)

Lemma scan_app l st c1 c2 :
  scan l st (c1 ++ c2) = (st1 <- scan l st c1 ;; scan l st1 c2).
Proof.
  revert st. induction c1 as [| b c1 IH]; intros st; simpl; [reflexivity |].
  unfold bind at 1 3. destruct (step l st b) as [st' |]; [| reflexivity].
  apply IH.
Qed.

Lemma scan_total l st c :
  wf_Commenter l -> cursors_ok l st ->
  exists st', scan l st c = Some st' /\ cursors_ok l st'.
Proof.
  intros Hwf. revert st. induction c as [| b c IH]; intros st Hok; simpl.
  - unfold ret. eauto.
  - destruct (step_total l st b Hwf Hok) as (st1 & -> & Hok1). simpl.
    apply IH, Hok1.
Qed.

Lemma start_cursors_ok l s : wf_Commenter l -> cursors_ok l (start s).
Proof.
  unfold wf_Commenter, go_marker, cursors_ok, cursor_ok. simpl. lia.
Qed.

Lemma Update_total l c s :
  wf_Commenter l -> exists s', Update l c s = Some s'.
Proof.
  intros Hwf. unfold Update.
  destruct (scan_total l (start s) c Hwf (start_cursors_ok l s Hwf))
    as (st & -> & _).
  simpl. unfold ret. eauto.
Qed.

(** ** The markers of the table are well formed *)

Ltac wf_by_computation :=
  unfold wf_Commenter, go_marker; rewrite max_int_eq;
  repeat split; vm_compute; congruence.

Lemma wf_cComments : wf_Commenter cComments.
Proof. wf_by_computation. Qed.

Lemma wf_shComments : wf_Commenter shComments.
Proof. wf_by_computation. Qed.

Lemma wf_noComments : wf_Commenter noComments.
Proof. wf_by_computation. Qed.

Lemma wf_xmlComments : wf_Commenter xmlComments.
Proof. wf_by_computation. Qed.

Lemma wf_hsComments : wf_Commenter hsComments.
Proof. wf_by_computation. Qed.

(** ** Cursors stay inside their markers *)

(** C10: for a descriptor whose three markers are non-empty, the state
    at the head of every iteration of the loop (the state after any
    prefix [pre] of the input) exists and has each of [lp], [sp] and
    [ep] at least 0 and below the length of its marker, so [lc[lp]],
    [sc[sp]] and [ec[ep]] are in bounds there and [Update] never panics. *)
Theorem cursors_in_bounds l pre post s :
  wf_Commenter l ->
  exists st,
    scan l (start s) pre = Some st /\
    0 <= lp st < len (LineComment l) /\
    0 <= sp st < len (StartComment l) /\
    0 <= ep st < len (EndComment l) /\
    (exists x y z,
        index (LineComment l) (lp st) = Some x /\
        index (StartComment l) (sp st) = Some y /\
        index (EndComment l) (ep st) = Some z) /\
    (exists s', Update l (pre ++ post) s = Some s').
Proof.
  intros Hwf.
  destruct (scan_total l (start s) pre Hwf (start_cursors_ok l s Hwf))
    as (st & Hscan & Hlp & Hsp & Hep).
  exists st. repeat split; try apply Hlp; try apply Hsp; try apply Hep; auto.
  - apply index_Some_iff in Hlp, Hsp, Hep.
    destruct Hlp as [x Hx], Hsp as [y Hy], Hep as [z Hz].
    exists x, y, z. auto.
  - apply Update_total, Hwf.
Qed.

Lemma cursors_in_bounds_witness :
  wf_Commenter cComments /\
  exists st,
    scan cComments (start zero_Stats) (bytes "/* a /") = Some st /\
    0 <= lp st < len (LineComment cComments) /\
    0 <= sp st < len (StartComment cComments) /\
    0 <= ep st < len (EndComment cComments) /\
    (exists x y z,
        index (LineComment cComments) (lp st) = Some x /\
        index (StartComment cComments) (sp st) = Some y /\
        index (EndComment cComments) (ep st) = Some z) /\
    (exists s',
        Update cComments (bytes "/* a /" ++ bytes "* b */") zero_Stats
        = Some s').
Proof.
  split; [exact wf_cComments |].
  apply (cursors_in_bounds cComments (bytes "/* a /") (bytes "* b */")
           zero_Stats wf_cComments).
Defined.

(** ** Counting lines *)

Lemma add_lines_add n n' z : add_lines n (add_lines n' z) = add_lines (n + n') z.
Proof. unfold add_lines. symmetry. apply Nat.iter_add. Qed.

Lemma wrap_add_lines n z : wrap (add_lines n z) = wrap (z + Z.of_nat n).
Proof.
  induction n as [| n IH].
  - simpl. f_equal. lia.
  - change (add_lines (S n) z) with (incr (add_lines n z)).
    unfold incr. rewrite wrap_idem, <- wrap_add_l, IH, wrap_add_l.
    f_equal. lia.
Qed.

Lemma add_lines_wrap n z : add_lines n (wrap z) = wrap (z + Z.of_nat n).
Proof.
  induction n as [| n IH].
  - simpl. f_equal. lia.
  - change (add_lines (S n) (wrap z)) with (incr (add_lines n (wrap z))).
    rewrite IH. unfold incr. rewrite wrap_add_l. f_equal. lia.
Qed.

Lemma add_lines_exact n z :
  0 <= z -> z + Z.of_nat n <= max_int -> add_lines n z = z + Z.of_nat n.
Proof.
  intros Hz. induction n as [| n IH]; intros Hn.
  - simpl. lia.
  - change (add_lines (S n) z) with (incr (add_lines n z)).
    rewrite IH by lia. rewrite incr_small; [lia |].
    unfold min_int. rewrite half_eq. lia.
Qed.

Lemma tally_tally k m b k' m' b' s :
  tally k m b (tally k' m' b' s) = tally (k + k') (m + m') (b + b') s.
Proof.
  unfold tally. simpl. rewrite !add_lines_add. do 2 f_equal. lia.
Qed.

Lemma wrap_add3 a b c : wrap (wrap a + wrap b + wrap c) = wrap (a + b + c).
Proof.
  rewrite wrap_add_r.
  replace (wrap a + wrap b + c) with (wrap a + (wrap b + c)) by lia.
  rewrite wrap_add_l.
  replace (a + (wrap b + c)) with (a + c + wrap b) by lia.
  rewrite wrap_add_r. f_equal. lia.
Qed.

Lemma tally_partition k m b s : partition s -> partition (tally k m b s).
Proof.
  unfold partition, tally. simpl. intros H.
  rewrite <- H, add_lines_wrap.
  rewrite <- wrap_add3, !wrap_add_lines, wrap_add3.
  f_equal. lia.
Qed.

Lemma count_nl_cons b c : count_nl (b :: c) = (count_nl [b] + count_nl c)%nat.
Proof. unfold count_nl. simpl. destruct (byte_eq_dec b NL); reflexivity. Qed.

Lemma count_nl_app c1 c2 : count_nl (c1 ++ c2) = (count_nl c1 + count_nl c2)%nat.
Proof. unfold count_nl. apply count_occ_app. Qed.

Lemma count_nl_length c : (count_nl c <= List.length c)%nat.
Proof. unfold count_nl. apply count_occ_bound. Qed.

Lemma count_nl_none c : ~ In NL c -> count_nl c = 0%nat.
Proof. unfold count_nl. apply count_occ_not_In. Qed.

Lemma eqb_NL_count b :
  count_nl [b] = if Byte.eqb b NL then 1%nat else 0%nat.
Proof.
  unfold count_nl. simpl. destruct (byte_eq_dec b NL) as [-> | Hne].
  - reflexivity.
  - destruct (Byte.eqb b NL) eqn:E; [| reflexivity].
    apply byte_dec_bl in E. contradiction.
Qed.

(** One iteration seen from outside: what the newline test finds (the
    depth [d] left by the block matchers, the line-comment flag [il],
    the blank flag [bl]) and what it does with it. *)
Lemma step_view l st b st' :
  step l st b = Some st' ->
  let d := inComment st' in
  let il := inLComment st || line_completes l b st in
  let bl := blank st && is_space b in
  stats st' =
    (if Byte.eqb b NL then
       if (d >? 0) || il then tally 0 1 0 (stats st)
       else if bl then tally 0 0 1 (stats st)
       else tally 1 0 0 (stats st)
     else stats st) /\
  inLComment st' = (if Byte.eqb b NL then false else il) /\
  blank st' = (if Byte.eqb b NL then true else bl).
Proof.
  intros H. step_inv H.
  pose proof (track_blank_fields b st3) as (T1 & T2 & T3 & _ & _ & _ & T4).
  pose proof (finalize_line_fields (track_blank b st3))
    as (F1 & F2 & F3 & _ & _ & _).
  pose proof (finalize_line_stats (track_blank b st3)) as F4.
  assert (Hs : stats st3 = stats st) by (subst st3 st2 st1; reflexivity).
  assert (Hil : inLComment st3 = inLComment st || line_completes l b st)
    by (subst st3 st2 st1; reflexivity).
  assert (Hbl : blank st3 = blank st) by (subst st3 st2 st1; reflexivity).
  cbv zeta. subst st'. destruct (Byte.eqb b NL).
  - rewrite F1, F2, F3, F4, T1, T2, T3, T4, Hs, Hil, Hbl.
    destruct ((inComment st3 >? 0) || (inLComment st || line_completes l b st))
      eqn:E; auto.
    apply orb_false_iff in E. destruct E as [_ ->]. auto.
  - rewrite T2, T3, T4, Hs, Hil, Hbl. auto.
Qed.

Lemma step_tally l st b st' :
  step l st b = Some st' ->
  exists k m bl,
    (k + m + bl = count_nl [b])%nat /\ stats st' = tally k m bl (stats st).
Proof.
  intros H. apply step_view in H. cbv zeta in H. destruct H as (H & _).
  rewrite eqb_NL_count. destruct (Byte.eqb b NL).
  - destruct (_ || _);
      [exists 0%nat, 1%nat, 0%nat | destruct (_ && _);
        [exists 0%nat, 0%nat, 1%nat | exists 1%nat, 0%nat, 0%nat]]; auto.
  - exists 0%nat, 0%nat, 0%nat. rewrite tally_000. auto.
Qed.

Lemma scan_tally l st c st' :
  scan l st c = Some st' ->
  exists k m bl,
    (k + m + bl = count_nl c)%nat /\ stats st' = tally k m bl (stats st).
Proof.
  revert st. induction c as [| b c IH]; intros st; simpl.
  - unfold ret. intros H. injection H as <-.
    exists 0%nat, 0%nat, 0%nat. rewrite tally_000. auto.
  - unfold bind. destruct (step l st b) as [st1 |] eqn:E; [| discriminate].
    intros H. apply IH in H. destruct H as (k & m & bl & Hsum & Hst).
    apply step_tally in E. destruct E as (k1 & m1 & bl1 & Hsum1 & Hst1).
    exists (k + k1)%nat, (m + m1)%nat, (bl + bl1)%nat.
    rewrite count_nl_cons, Hst, Hst1, tally_tally. split; [lia | reflexivity].
Qed.

Lemma scan_no_newline l st c st' :
  scan l st c = Some st' -> ~ In NL c -> stats st' = stats st.
Proof.
  intros H Hnl. apply scan_tally in H. destruct H as (k & m & bl & Hsum & ->).
  rewrite (count_nl_none c Hnl) in Hsum.
  assert (k = 0 /\ m = 0 /\ bl = 0)%nat as (-> & -> & ->) by lia.
  apply tally_000.
Qed.

Lemma Update_Some l c s s' :
  Update l c s = Some s' ->
  exists st, scan l (start s) c = Some st /\ s' = stats st.
Proof.
  unfold Update, bind, ret.
  destruct (scan l (start s) c) as [st |]; [| discriminate].
  intros H. injection H as <-. eauto.
Qed.

(** ** The partition of the lines *)

(** C1: whenever [Update] returns (and it does for every descriptor
    with non-empty markers), the lines it has added to the counters are
    split exactly: there are numbers of code, comment and blank lines
    whose sum is the number of lines added to the total (one per
    newline byte), so each finalized line went to exactly one category;
    and Go's own test [code + comment + blank == total] is passed by
    the result whenever the accumulator passed it before. *)
Theorem Update_partition l c s :
  (wf_Commenter l -> exists s', Update l c s = Some s') /\
  forall s', Update l c s = Some s' ->
    (partition s -> partition s') /\
    exists code comment blank total : nat,
      (code + comment + blank = total)%nat /\
      TotalLines s' = add_lines total (TotalLines s) /\
      CodeLines s' = add_lines code (CodeLines s) /\
      CommentLines s' = add_lines comment (CommentLines s) /\
      BlankLines s' = add_lines blank (BlankLines s).
Proof.
  split; [apply Update_total |].
  intros s' H. apply Update_Some in H. destruct H as (st & H & ->).
  apply scan_tally in H. destruct H as (k & m & bl & Hsum & ->).
  split.
  - intros Hp. apply tally_partition. exact Hp.
  - exists k, m, bl, (k + m + bl)%nat. simpl. auto.
Qed.

Lemma Update_partition_witness :
  wf_Commenter cComments /\
  Update cComments (bytes "x = 1" ++ [NL] ++ bytes "// c" ++ [NL; NL])
         zero_Stats = Some (mkStats 1 3 1 1 1) /\
  partition zero_Stats /\
  partition (mkStats 1 3 1 1 1).
Proof.
  assert (Hwf : wf_Commenter cComments) by wf_by_computation.
  assert (Hrun : Update cComments
                   (bytes "x = 1" ++ [NL] ++ bytes "// c" ++ [NL; NL])
                   zero_Stats = Some (mkStats 1 3 1 1 1))
    by (vm_compute; reflexivity).
  assert (Hzero : partition zero_Stats) by (vm_compute; reflexivity).
  split; [exact Hwf |]. split; [exact Hrun |]. split; [exact Hzero |].
  exact (proj1 (proj2 (Update_partition cComments _ zero_Stats) _ Hrun) Hzero).
Defined.

(** Without overflow the test holds in the integers: a scan of a slice
    (whose length is an [int]) into fresh counters. *)
Lemma Update_partition_exact l c s' :
  len c <= max_int ->
  Update l c zero_Stats = Some s' ->
  CodeLines s' + CommentLines s' + BlankLines s' = TotalLines s' /\
  TotalLines s' = Z.of_nat (count_nl c) /\
  0 <= CodeLines s' /\ 0 <= CommentLines s' /\ 0 <= BlankLines s'.
Proof.
  intros Hlen H. apply Update_Some in H. destruct H as (st & H & ->).
  apply scan_tally in H. destruct H as (k & m & bl & Hsum & ->).
  pose proof (count_nl_length c) as Hc. unfold len in Hlen.
  simpl. rewrite !add_lines_exact by lia. lia.
Qed.

(** ** Lines are finalized at newline bytes only *)

(** C3: for a descriptor with non-empty markers and an input slice
    [c ++ tail] whose [tail] holds no newline, [Update] returns; the
    partial line [tail] changes no counter (the result is that of [c]
    alone); the total has been incremented once per newline byte, so
    starting from fresh counters it is the number of newline bytes; the
    empty input leaves all four line counters at 0; and an iteration on
    a byte other than newline leaves every counter as it was. *)
Theorem lines_finalized_only_at_newline l c tail s :
  wf_Commenter l -> ~ In NL tail -> len (c ++ tail) <= max_int ->
  (exists s',
      Update l c s = Some s' /\
      Update l (c ++ tail) s = Some s' /\
      TotalLines s' = add_lines (count_nl (c ++ tail)) (TotalLines s)) /\
  (exists s0,
      Update l (c ++ tail) zero_Stats = Some s0 /\
      TotalLines s0 = Z.of_nat (count_nl (c ++ tail))) /\
  Update l [] zero_Stats = Some (mkStats 1 0 0 0 0) /\
  (forall st b st', step l st b = Some st' -> b <> NL -> stats st' = stats st).
Proof.
  intros Hwf Htail Hlen. repeat split.
  - destruct (scan_total l (start s) c Hwf (start_cursors_ok l s Hwf))
      as (st1 & H1 & Hok1).
    destruct (scan_total l st1 tail Hwf Hok1) as (st2 & H2 & _).
    exists (stats st1). unfold Update. rewrite scan_app, H1. simpl.
    rewrite H2. simpl. unfold ret.
    rewrite (scan_no_newline _ _ _ _ H2 Htail).
    repeat split.
    apply scan_tally in H1. destruct H1 as (k & m & bl & Hsum & ->).
    simpl. rewrite count_nl_app, (count_nl_none tail Htail), Nat.add_0_r.
    rewrite Hsum. reflexivity.
  - destruct (Update_total l (c ++ tail) zero_Stats Hwf) as (s0 & H0).
    exists s0. split; [exact H0 |].
    apply (Update_partition_exact l _ _ Hlen H0).
  - intros st b st' H Hb. apply step_view in H. destruct H as (-> & _).
    destruct (Byte.eqb b NL) eqn:E; [| reflexivity].
    apply byte_dec_bl in E. contradiction.
Qed.

Lemma lines_finalized_only_at_newline_witness :
  wf_Commenter cComments /\ ~ In NL (bytes "int y") /\
  len ((bytes "int x;" ++ [NL]) ++ bytes "int y") <= max_int /\
  Update cComments ((bytes "int x;" ++ [NL]) ++ bytes "int y") zero_Stats
  = Update cComments (bytes "int x;" ++ [NL]) zero_Stats.
Proof.
  assert (Hwf : wf_Commenter cComments) by wf_by_computation.
  assert (Htail : ~ In NL (bytes "int y"))
    by (vm_compute; intuition discriminate).
  assert (Hlen : len ((bytes "int x;" ++ [NL]) ++ bytes "int y") <= max_int)
    by (vm_compute; discriminate).
  split; [exact Hwf |]. split; [exact Htail |]. split; [exact Hlen |].
  destruct (lines_finalized_only_at_newline cComments
              (bytes "int x;" ++ [NL]) (bytes "int y") zero_Stats
              Hwf Htail Hlen) as ((s' & H1 & H2 & _) & _).
  rewrite H1, H2. reflexivity.
Defined.

(** ** A line comment wins over the code before it *)

Lemma eqb_NL_false b : b <> NL -> Byte.eqb b NL = false.
Proof.
  intros Hb. destruct (Byte.eqb b NL) eqn:E; [| reflexivity].
  apply byte_dec_bl in E. contradiction.
Qed.

Lemma eqb_NL_true : Byte.eqb NL NL = true.
Proof. reflexivity. Qed.

(** Once set, [inLComment] stays set up to the next newline byte. *)
Lemma scan_in_line_comment l st c :
  wf_Commenter l -> cursors_ok l st -> inLComment st = true -> ~ In NL c ->
  exists st',
    scan l st c = Some st' /\ cursors_ok l st' /\
    inLComment st' = true /\ stats st' = stats st.
Proof.
  intros Hwf. revert st. induction c as [| b c IH]; intros st Hok Hil Hnl.
  - exists st. simpl. auto.
  - destruct (step_total l st b Hwf Hok) as (st1 & Hstep & Hok1).
    assert (Hb : b <> NL) by (intros ->; apply Hnl; left; reflexivity).
    pose proof (step_view _ _ _ _ Hstep) as (Hs & Hil1 & _).
    rewrite (eqb_NL_false b Hb) in Hs, Hil1. rewrite Hil in Hil1.
    simpl in Hil1.
    destruct (IH st1 Hok1 Hil1) as (st' & Hscan & Hok' & Hil' & Hs').
    { intros Hin. apply Hnl. right. exact Hin. }
    exists st'. simpl. rewrite Hstep. simpl.
    repeat split; try assumption; try apply Hok'. congruence.
Qed.

(** C2: take a line [pre ++ b :: rest] followed by its newline, where
    the byte [b] completes the line-comment marker ([pre] holds whatever
    comes before, code bytes included, so the blank flag may well be
    false).  The scan of the line returns, and the line is counted once,
    as a comment line: the comment counter and the total are incremented
    once, the code and blank counters are unchanged.  So it is for
    [int x = 1; // note] under the C-style descriptor. *)
Theorem code_then_line_comment_is_comment l st pre b rest st1 :
  wf_Commenter l -> cursors_ok l st ->
  ~ In NL (pre ++ b :: rest) ->
  scan l st pre = Some st1 ->
  line_completes l b st1 = true ->
  (exists st',
      scan l st (pre ++ b :: rest ++ [NL]) = Some st' /\
      CommentLines (stats st') = incr (CommentLines (stats st)) /\
      CodeLines (stats st') = CodeLines (stats st) /\
      BlankLines (stats st') = BlankLines (stats st) /\
      TotalLines (stats st') = incr (TotalLines (stats st)) /\
      inLComment st' = false) /\
  Update cComments (bytes "int x = 1; // note" ++ [NL]) zero_Stats
  = Some (mkStats 1 1 0 0 1).
Proof.
  intros Hwf Hok Hnl Hpre Hb. split; [| vm_compute; reflexivity].
  assert (Hnl1 : ~ In NL pre) by (intros H; apply Hnl, in_or_app; auto).
  assert (Hnl2 : b <> NL)
    by (intros ->; apply Hnl, in_or_app; right; left; reflexivity).
  assert (Hnl3 : ~ In NL rest)
    by (intros H; apply Hnl, in_or_app; right; right; exact H).
  destruct (scan_total l st pre Hwf Hok) as (st1' & Hpre' & Hok1).
  rewrite Hpre in Hpre'. injection Hpre' as <-.
  pose proof (scan_no_newline _ _ _ _ Hpre Hnl1) as Hs1.
  destruct (step_total l st1 b Hwf Hok1) as (st2 & Hstep & Hok2).
  pose proof (step_view _ _ _ _ Hstep) as (Hs2 & Hil2 & _).
  rewrite (eqb_NL_false b Hnl2) in Hs2, Hil2. rewrite Hb, orb_true_r in Hil2.
  destruct (scan_in_line_comment l st2 rest Hwf Hok2 Hil2 Hnl3)
    as (st3 & Hrest & Hok3 & Hil3 & Hs3).
  destruct (step_total l st3 NL Hwf Hok3) as (st4 & Hlast & _).
  pose proof (step_view _ _ _ _ Hlast) as (Hs4 & Hil4 & _).
  rewrite eqb_NL_true, Hil3, orb_true_r in Hs4. simpl in Hs4, Hil4.
  exists st4. split.
  - rewrite scan_app, Hpre. simpl. rewrite Hstep. simpl.
    rewrite scan_app, Hrest. simpl. rewrite Hlast. reflexivity.
  - rewrite Hs4, Hs3, Hs2, Hs1. simpl. auto.
Qed.

Lemma code_then_line_comment_is_comment_witness :
  line_completes cComments "/"%byte
    (mkScan 0 false false 1 1 0 (mkStats 1 0 0 0 0)) = true /\
  exists st',
    scan cComments (start zero_Stats)
         (bytes "int x = 1; /" ++ "/"%byte :: bytes " note" ++ [NL])
    = Some st' /\
    CommentLines (stats st') = 1 /\ CodeLines (stats st') = 0.
Proof.
  assert (Hwf : wf_Commenter cComments) by wf_by_computation.
  assert (Hok : cursors_ok cComments (start zero_Stats))
    by (vm_compute; intuition discriminate).
  assert (Hnl : ~ In NL (bytes "int x = 1; /" ++ "/"%byte :: bytes " note"))
    by (vm_compute; intuition discriminate).
  assert (Hpre : scan cComments (start zero_Stats) (bytes "int x = 1; /")
                 = Some (mkScan 0 false false 1 1 0 (mkStats 1 0 0 0 0)))
    by (vm_compute; reflexivity).
  assert (Hb : line_completes cComments "/"%byte
                 (mkScan 0 false false 1 1 0 (mkStats 1 0 0 0 0)) = true)
    by (vm_compute; reflexivity).
  split; [exact Hb |].
  destruct (code_then_line_comment_is_comment cComments (start zero_Stats)
              (bytes "int x = 1; /") "/"%byte (bytes " note") _
              Hwf Hok Hnl Hpre Hb)
    as ((st' & Hscan & Hc & Hk & _) & _).
  exists st'. split; [exact Hscan |]. split; [exact Hc | exact Hk].
Defined.


(** ** A failed partial match starts again from nothing *)

Lemma next_cursor_mismatch g b m p x :
  index m p = Some x -> b <> x -> next_cursor g b m p = 0.
Proof.
  intros Hx Hb. unfold next_cursor.
  rewrite (guarded_eq_mismatch g b m p x Hx Hb). reflexivity.
Qed.

(** The cursors after one iteration. *)
Lemma step_cursors l st b st' :
  step l st b = Some st' ->
  lp st' = next_cursor (inComment st =? 0) b (LineComment l) (lp st) /\
  sp st' = next_cursor (negb (inLComment st || line_completes l b st)) b
             (StartComment l) (sp st) /\
  exists g, ep st' = next_cursor g b (EndComment l) (ep st).
Proof.
  intros H. step_inv H.
  pose proof (track_blank_fields b st3) as (_ & _ & _ & T1 & T2 & T3 & _).
  pose proof (finalize_line_fields (track_blank b st3))
    as (_ & _ & _ & F1 & F2 & F3).
  assert (E : lp st' = lp st3 /\ sp st' = sp st3 /\ ep st' = ep st3).
  { subst st'. destruct (Byte.eqb b NL);
      rewrite ?F1, ?F2, ?F3, ?T1, ?T2, ?T3; auto. }
  destruct E as (-> & -> & ->). subst st3 st2 st1. simpl.
  split; [reflexivity |]. split; [reflexivity |]. eexists. reflexivity.
Qed.

(** C4: in each of the three matchers a byte that differs from the
    marker byte under the cursor leaves the cursor at 0, also when the
    byte is the first byte of the marker: it is not tried again at an
    earlier position.  Hence the marker ["ab"] is found in ["ab"] and
    missed in ["aab"], as a line marker, a block start and a block end;
    and the ["-->"] of XML is missed in ["--->"]. *)
Theorem failed_match_resets_cursor l st b st' :
  step l st b = Some st' ->
  (forall x, index (LineComment l) (lp st) = Some x -> b <> x -> lp st' = 0) /\
  (forall x, index (StartComment l) (sp st) = Some x -> b <> x -> sp st' = 0) /\
  (forall x, index (EndComment l) (ep st) = Some x -> b <> x -> ep st' = 0) /\
  Update abLine (line "ab") zero_Stats = Some (mkStats 1 1 0 0 1) /\
  Update abLine (line "aab") zero_Stats = Some (mkStats 1 1 1 0 0) /\
  Update abStart (line "ab" ++ line "x") zero_Stats
  = Some (mkStats 1 2 0 0 2) /\
  Update abStart (line "aab" ++ line "x") zero_Stats
  = Some (mkStats 1 2 2 0 0) /\
  Update abEnd (line "{ab" ++ line "x") zero_Stats
  = Some (mkStats 1 2 2 0 0) /\
  Update abEnd (line "{aab" ++ line "x") zero_Stats
  = Some (mkStats 1 2 0 0 2) /\
  Update xmlComments (line "<!-- x -->" ++ line "<p>") zero_Stats
  = Some (mkStats 1 2 2 0 0) /\
  Update xmlComments (line "<!-- x --->" ++ line "<p>") zero_Stats
  = Some (mkStats 1 2 0 0 2).
Proof.
  intros H. apply step_cursors in H. destruct H as (Hlp & Hsp & g & Hep).
  split; [| split; [| split]].
  - intros x Hx Hb. rewrite Hlp. eapply next_cursor_mismatch; eassumption.
  - intros x Hx Hb. rewrite Hsp. eapply next_cursor_mismatch; eassumption.
  - intros x Hx Hb. rewrite Hep. eapply next_cursor_mismatch; eassumption.
  - repeat split; vm_compute; reflexivity.
Qed.

Lemma failed_match_resets_cursor_witness :
  step abLine (mkScan 0 false false 1 0 0 (mkStats 1 0 0 0 0)) "a"%byte
  = Some (mkScan 0 false false 0 0 0 (mkStats 1 0 0 0 0)) /\
  index (LineComment abLine) 1 = Some "b"%byte /\
  index (LineComment abLine) 0 = Some "a"%byte /\
  lp (mkScan 0 false false 0 0 0 (mkStats 1 0 0 0 0)) = 0.
Proof.
  assert (Hstep : step abLine (mkScan 0 false false 1 0 0 (mkStats 1 0 0 0 0))
                    "a"%byte
                  = Some (mkScan 0 false false 0 0 0 (mkStats 1 0 0 0 0)))
    by (vm_compute; reflexivity).
  assert (Hx : index (LineComment abLine) 1 = Some "b"%byte)
    by (vm_compute; reflexivity).
  assert (Hb : "a"%byte <> "b"%byte) by discriminate.
  split; [exact Hstep |]. split; [exact Hx |].
  split; [vm_compute; reflexivity |].
  exact (proj1 (failed_match_resets_cursor _ _ _ _ Hstep) _ Hx Hb).
Defined.

(** ** When the line-comment matcher runs *)




(** ** The depth of block comments *)

(** The depth after one iteration, through the states [st1] after the
    line matcher and [st2] after the block-start matcher. *)
Lemma step_depth l st b st' :
  step l st b = Some st' ->
  exists st1 st2,
    inLComment st1 = inLComment st || line_completes l b st /\
    inComment st1 = inComment st /\ sp st1 = sp st /\ ep st1 = ep st /\
    inLComment st2 = inLComment st1 /\ ep st2 = ep st /\
    inComment st2 =
      (if start_completes l b st1
       then if (incr (inComment st) >? 1) && negb (Nesting l)
            then 1 else incr (inComment st)
       else inComment st) /\
    inComment st' =
      (if end_completes l b st2 then decr (inComment st2) else inComment st2).
Proof.
  intros H. step_inv H.
  pose proof (track_blank_fields b st3) as (T1 & _).
  pose proof (finalize_line_fields (track_blank b st3)) as (F1 & _).
  assert (E : inComment st' = inComment st3).
  { subst st'. destruct (Byte.eqb b NL); rewrite ?F1, ?T1; reflexivity. }
  exists st1, st2. rewrite E. subst st3 st2 st1. simpl. repeat split.
Qed.

Lemma completes_nul g b p : b <> NUL -> completes g b nul p = false.
Proof.
  intros Hb. unfold completes.
  destruct (guarded_eq g b nul p) as [[|] |] eqn:E; try reflexivity.
  apply guarded_eq_true in E. destruct E as [_ E].
  apply index_nul_Some in E. contradiction.
Qed.

Lemma completes_guard_false b m p : completes false b m p = false.
Proof. reflexivity. Qed.

Lemma scan_absent_line l st c st' :
  LineComment l = nul -> ~ In NUL c ->
  scan l st c = Some st' -> inLComment st = false -> inLComment st' = false.
Proof.
  intros Hl. revert st. induction c as [| b c IH]; intros st Hnul; simpl.
  - unfold ret. intros H. injection H as <-. auto.
  - unfold bind. destruct (step l st b) as [st1 |] eqn:E; [| discriminate].
    intros H Hil.
    assert (Hb : b <> NUL) by (intros ->; apply Hnul; left; reflexivity).
    assert (Hc : ~ In NUL c) by (intros Hin; apply Hnul; right; exact Hin).
    apply (IH st1 Hc H).
    pose proof (step_view _ _ _ _ E) as (_ & -> & _).
    destruct (Byte.eqb b NL); [reflexivity |].
    unfold line_completes. rewrite Hl, Hil, completes_nul; auto.
Qed.

Lemma scan_absent_start l st c st' :
  StartComment l = nul -> ~ In NUL c ->
  scan l st c = Some st' -> inComment st = 0 -> inComment st' = 0.
Proof.
  intros Hl. revert st. induction c as [| b c IH]; intros st Hnul; simpl.
  - unfold ret. intros H. injection H as <-. auto.
  - unfold bind. destruct (step l st b) as [st1 |] eqn:E; [| discriminate].
    intros H Hd.
    assert (Hb : b <> NUL) by (intros ->; apply Hnul; left; reflexivity).
    assert (Hc : ~ In NUL c) by (intros Hin; apply Hnul; right; exact Hin).
    apply (IH st1 Hc H).
    apply step_depth in E.
    destruct E as (s1 & s2 & _ & _ & _ & _ & _ & _ & H2 & ->).
    unfold start_completes in H2. rewrite Hl, completes_nul in H2 by auto.
    unfold end_completes. rewrite H2, Hd. simpl. rewrite andb_false_r.
    reflexivity.
Qed.

(** With both block markers absent the depth is 0 after every byte,
    whatever the input: a NUL byte opens and closes within its own
    iteration. *)
Lemma step_both_absent l st b st' :
  StartComment l = nul -> EndComment l = nul ->
  step l st b = Some st' ->
  inComment st = 0 /\ ep st = 0 -> inComment st' = 0 /\ ep st' = 0.
Proof.
  intros Hs He H (Hd & Hep).
  pose proof (step_cursors _ _ _ _ H) as (_ & _ & g & Hep').
  assert (Hcur : ep st' = 0).
  { rewrite Hep', He, Hep. unfold next_cursor.
    destruct (guarded_eq g b nul 0) as [[|] |]; reflexivity. }
  split; [| exact Hcur].
  apply step_depth in H.
  destruct H as (s1 & s2 & Hil1 & _ & Hsp1 & _ & Hil2 & Hep2 & H2 & ->).
  unfold end_completes. rewrite H2, Hep2, Hep, He, Hil2, Hd.
  unfold start_completes. rewrite Hs.
  destruct (completes (negb (inLComment s1)) b nul (sp s1)) eqn:Ec.
  - apply completes_true in Ec. destruct Ec as (Hg & Hb & _).
    apply index_nul_Some in Hb. subst b. rewrite Hg.
    destruct (Nesting l); vm_compute; reflexivity.
  - simpl. rewrite andb_false_r. reflexivity.
Qed.

Lemma scan_both_absent l st c st' :
  StartComment l = nul -> EndComment l = nul ->
  scan l st c = Some st' ->
  inComment st = 0 /\ ep st = 0 -> inComment st' = 0 /\ ep st' = 0.
Proof.
  intros Hs He. revert st. induction c as [| b c IH]; intros st; simpl.
  - unfold ret. intros H. injection H as <-. auto.
  - unfold bind. destruct (step l st b) as [st1 |] eqn:E; [| discriminate].
    intros H Hinv. apply (IH st1 H).
    eapply step_both_absent; eassumption.
Qed.

(** ** Absent markers *)

(** C6, as stated, fails: the sentinel of an absent marker is the string
    holding one NUL byte, and a NUL byte of the input matches it.  Under
    [noComments] a NUL byte completes the line marker and its line is
    counted as a comment line; under the shell-style descriptor a NUL
    byte completes the block-start marker and the depth becomes 1. *)
Lemma absent_marker_matches_NUL :
  line_completes noComments NUL (start zero_Stats) = true /\
  Update noComments [NUL; NL] zero_Stats = Some (mkStats 1 1 0 0 1) /\
  start_completes shComments NUL (start zero_Stats) = true /\
  option_map inComment (start_matcher shComments NUL (start zero_Stats))
  = Some 1.
Proof. repeat split; vm_compute; reflexivity. Qed.

(** C6, amended: on an input without NUL byte a marker that is the
    sentinel never completes a match: no byte other than NUL completes
    it in any state, and after every prefix [pre] of such an input the
    scan is not in a line comment when the line marker is absent and at
    depth 0 when the block-start marker is absent; the scan returns. *)
Theorem absent_marker_never_matches_without_NUL l pre post s b st0 :
  wf_Commenter l -> ~ In NUL (pre ++ post) -> b <> NUL ->
  (LineComment l = nul ->
   line_completes l b st0 = false /\
   exists st, scan l (start s) pre = Some st /\ inLComment st = false) /\
  (StartComment l = nul ->
   start_completes l b st0 = false /\
   exists st, scan l (start s) pre = Some st /\ inComment st = 0) /\
  (EndComment l = nul -> end_completes l b st0 = false) /\
  (exists s', Update l (pre ++ post) s = Some s').
Proof.
  intros Hwf Hnul Hb.
  assert (Hpre : ~ In NUL pre) by (intros H; apply Hnul, in_or_app; auto).
  destruct (scan_total l (start s) pre Hwf (start_cursors_ok l s Hwf))
    as (st & Hscan & _).
  split; [| split; [| split]].
  - intros Hl. split.
    + unfold line_completes. rewrite Hl. apply completes_nul, Hb.
    + exists st. split; [exact Hscan |].
      apply (scan_absent_line l _ pre st Hl Hpre Hscan). reflexivity.
  - intros Hs. split.
    + unfold start_completes. rewrite Hs. apply completes_nul, Hb.
    + exists st. split; [exact Hscan |].
      apply (scan_absent_start l _ pre st Hs Hpre Hscan). reflexivity.
  - intros He. unfold end_completes. rewrite He. apply completes_nul, Hb.
  - apply Update_total, Hwf.
Qed.

Lemma absent_marker_never_matches_without_NUL_witness :
  wf_Commenter shComments /\
  ~ In NUL (bytes "echo hi # /* " ++ [NL]) /\
  StartComment shComments = nul /\
  exists st,
    scan shComments (start zero_Stats) (bytes "echo hi # /* ") = Some st /\
    inComment st = 0.
Proof.
  assert (Hwf : wf_Commenter shComments) by wf_by_computation.
  assert (Hnul : ~ In NUL (bytes "echo hi # /* " ++ [NL]))
    by (vm_compute; intuition discriminate).
  assert (Hb : "#"%byte <> NUL) by discriminate.
  split; [exact Hwf |]. split; [exact Hnul |]. split; [reflexivity |].
  exact (proj2 (proj1 (proj2
           (absent_marker_never_matches_without_NUL shComments
              (bytes "echo hi # /* ") [NL] zero_Stats "#"%byte
              (start zero_Stats) Hwf Hnul Hb)) eq_refl)).
Defined.

(** A shell-style language is at depth 0 after every byte of every
    input, NUL bytes included. *)
Lemma shell_style_depth_zero l pre post s :
  wf_Commenter l -> StartComment l = nul -> EndComment l = nul ->
  exists st, scan l (start s) pre = Some st /\ inComment st = 0 /\
    exists s', Update l (pre ++ post) s = Some s'.
Proof.
  intros Hwf Hs He.
  destruct (scan_total l (start s) pre Hwf (start_cursors_ok l s Hwf))
    as (st & Hscan & _).
  exists st. split; [exact Hscan |]. split.
  - apply (scan_both_absent l _ pre st Hs He Hscan). auto.
  - apply Update_total, Hwf.
Qed.

(** The line marker of [mlComments] is not the sentinel: written in
    back quotes, it is a backslash and three zeros, and a line holding
    that text is a comment line. *)
Lemma mlComments_line_marker :
  len (LineComment mlComments) = 4 /\
  LineComment mlComments <> nul /\
  Update mlComments (line "x = \000") zero_Stats = Some (mkStats 1 1 0 0 1).
Proof.
  split; [reflexivity |]. split; [discriminate |]. vm_compute. reflexivity.
Qed.

(** ** Nested block comments *)

(** C7: a completed match of the block-start marker increments the
    depth, and without nesting a depth above 1 is put back to 1.  On
    [/* a /* b */ c */] and [code], each followed by a newline, the
    depth after each byte goes 0, 1, 2, 1, 0 with nesting (closed by the
    outer end marker only) and 0, 1, 0 without (closed by the first end
    marker); without nesting both lines are code lines. *)
Theorem block_start_increments_and_clamps l b st st' :
  start_matcher l b st = Some st' -> start_completes l b st = true ->
  (Nesting l = true -> inComment st' = incr (inComment st)) /\
  (Nesting l = false ->
   inComment st' =
     (if incr (inComment st) >? 1 then 1 else incr (inComment st)) /\
   inComment st' <= 1) /\
  depths cNesting (line "/* a /* b */ c */" ++ line "code")
  = Some [0; 1; 1; 1; 1; 1; 2; 2; 2; 2; 2; 1; 1; 1; 1; 1; 0; 0;
          0; 0; 0; 0; 0] /\
  depths cComments (line "/* a /* b */ c */" ++ line "code")
  = Some [0; 1; 1; 1; 1; 1; 1; 1; 1; 1; 1; 0; 0; 0; 0; 0; 0; 0;
          0; 0; 0; 0; 0] /\
  Update cComments (line "/* a /* b */ c */") zero_Stats
  = Some (mkStats 1 1 1 0 0) /\
  Update cComments (line "/* a /* b */ c */" ++ line "code") zero_Stats
  = Some (mkStats 1 2 2 0 0).
Proof.
  intros H Hc. apply start_matcher_Some in H. subst st'. simpl.
  rewrite Hc. split; [| split].
  - intros ->. rewrite andb_false_r. reflexivity.
  - intros ->. rewrite andb_true_r.
    split; [reflexivity |].
    destruct (Z.gtb_spec (incr (inComment st)) 1); lia.
  - repeat split; vm_compute; reflexivity.
Qed.

Lemma block_start_increments_and_clamps_witness :
  start_matcher cNesting "*"%byte
    (mkScan 1 false false 0 1 0 (mkStats 1 0 0 0 0))
  = Some (mkScan 2 false false 0 0 0 (mkStats 1 0 0 0 0)) /\
  start_completes cNesting "*"%byte
    (mkScan 1 false false 0 1 0 (mkStats 1 0 0 0 0)) = true /\
  Nesting cNesting = true /\
  2 = incr 1.
Proof.
  assert (H : start_matcher cNesting "*"%byte
                (mkScan 1 false false 0 1 0 (mkStats 1 0 0 0 0))
              = Some (mkScan 2 false false 0 0 0 (mkStats 1 0 0 0 0)))
    by (vm_compute; reflexivity).
  assert (Hc : start_completes cNesting "*"%byte
                 (mkScan 1 false false 0 1 0 (mkStats 1 0 0 0 0)) = true)
    by (vm_compute; reflexivity).
  split; [exact H |]. split; [exact Hc |]. split; [reflexivity |].
  exact (proj1 (block_start_increments_and_clamps _ _ _ _ H Hc) eq_refl).
Defined.

(** ** Unterminated block comments *)



(** A newline byte that is part of neither block marker leaves the
    depth as it is. *)
Lemma newline_keeps_depth l st st' :
  ~ In NL (StartComment l) -> ~ In NL (EndComment l) ->
  step l st NL = Some st' -> inComment st' = inComment st.
Proof.
  intros Hs He H. apply step_depth in H.
  destruct H as (s1 & s2 & _ & _ & _ & _ & _ & _ & H2 & ->).
  assert (E1 : start_completes l NL s1 = false).
  { destruct (start_completes l NL s1) eqn:E; [| reflexivity].
    apply completes_true in E. destruct E as (_ & E & _).
    unfold index in E. destruct (sp s1 <? 0); [discriminate |].
    apply nth_error_In in E. contradiction. }
  assert (E2 : end_completes l NL s2 = false).
  { destruct (end_completes l NL s2) eqn:E; [| reflexivity].
    apply completes_true in E. destruct E as (_ & E & _).
    unfold index in E. destruct (ep s2 <? 0); [discriminate |].
    apply nth_error_In in E. contradiction. }
  rewrite E2, H2, E1. reflexivity.
Qed.



(** ** The order of the rows of the report *)

Lemma to_N_inj (x y : byte) : Byte.to_N x = Byte.to_N y -> x = y.
Proof.
  intros H. pose proof (Byte.of_to_N x) as Hx.
  rewrite H, Byte.of_to_N in Hx. congruence.
Qed.

Lemma string_lt_nil_r a : Report.string_lt a [] = false.
Proof. destruct a; reflexivity. Qed.

Lemma string_lt_irrefl a : Report.string_lt a a = false.
Proof.
  induction a as [| x a IH]; simpl; [reflexivity |].
  rewrite N.ltb_irrefl. exact IH.
Qed.

Lemma string_lt_lex_gt a b :
  Report.string_lt a b = true -> Report.lex_gt b a.
Proof.
  revert b. induction a as [| x a IH]; intros [| y b]; simpl;
    try discriminate.
  - intros _. right. exists (y :: b). split; [discriminate | reflexivity].
  - destruct (N.ltb_spec (Byte.to_N x) (Byte.to_N y)) as [Hlt | Hge].
    + intros _. left. exists [], y, x, b, a. simpl. auto.
    + destruct (N.ltb_spec (Byte.to_N y) (Byte.to_N x)) as [Hlt' | Hge'];
        [discriminate |].
      assert (x = y) by (apply to_N_inj; lia). subst y.
      intros H. apply IH in H. destruct H as [H | H].
      * destruct H as (p & u & v & b' & a' & -> & -> & Huv).
        left. exists (x :: p), u, v, b', a'. simpl. auto.
      * destruct H as (t & Ht & ->).
        right. exists t. simpl. auto.
Qed.

Lemma lex_gt_string_lt a b :
  Report.lex_gt b a -> Report.string_lt a b = true.
Proof.
  intros [H | H].
  - destruct H as (p & u & v & b' & a' & -> & -> & Huv).
    induction p as [| x p IH]; simpl.
    + apply N.ltb_lt in Huv. rewrite Huv. reflexivity.
    + rewrite N.ltb_irrefl. exact IH.
  - destruct H as (t & Ht & ->).
    induction a as [| x a IH]; simpl.
    + destruct t; [contradiction | reflexivity].
    + rewrite N.ltb_irrefl. exact IH.
Qed.

Lemma string_lt_total a b :
  Report.string_lt a b = false -> Report.string_lt b a = false -> a = b.
Proof.
  revert b. induction a as [| x a IH]; intros [| y b]; simpl;
    try discriminate; [reflexivity |].
  destruct (N.ltb_spec (Byte.to_N x) (Byte.to_N y)) as [Hlt | Hge];
    [discriminate |].
  destruct (N.ltb_spec (Byte.to_N y) (Byte.to_N x)) as [Hlt' | Hge'];
    [discriminate |].
  assert (x = y) by (apply to_N_inj; lia). subst y.
  intros H1 H2. f_equal. apply IH; assumption.
Qed.

Lemma Less_Some d i j x y :
  index d i = Some x -> index d j = Some y ->
  Report.Less d i j =
    Some (if Report.CodeLines x =? Report.CodeLines y
          then Report.string_gt (Report.Name x) (Report.Name y)
          else Report.CodeLines x >? Report.CodeLines y).
Proof.
  intros Hx Hy. unfold Report.Less. rewrite Hx, Hy. simpl.
  destruct (_ =? _); reflexivity.
Qed.

(** C9: [Less] puts the row [i] before the row [j] exactly when [i] has
    more code lines, or as many and a lexicographically greater name.
    Hence in a report sorted by it the code-line counts never increase
    from one row to a later one, and among rows with equal counts the
    names never increase. *)
Theorem Less_code_then_name_descending d i j x y :
  index d i = Some x -> index d j = Some y ->
  (Report.Less d i j = Some true <->
   Report.CodeLines y < Report.CodeLines x \/
   (Report.CodeLines x = Report.CodeLines y /\
    Report.lex_gt (Report.Name x) (Report.Name y))) /\
  (Report.sorted d -> i < j ->
   Report.CodeLines y < Report.CodeLines x \/
   (Report.CodeLines x = Report.CodeLines y /\
    (Report.lex_gt (Report.Name x) (Report.Name y) \/
     Report.Name x = Report.Name y))).
Proof.
  intros Hx Hy. split.
  - rewrite (Less_Some d i j x y Hx Hy). unfold Report.string_gt.
    destruct (Z.eqb_spec (Report.CodeLines x) (Report.CodeLines y)) as [E | E].
    + split.
      * intros H. injection H as H. right. split; [exact E |].
        apply string_lt_lex_gt, H.
      * intros [H | [_ H]]; [lia |].
        f_equal. apply lex_gt_string_lt, H.
    + split.
      * intros H. injection H as H. apply Z.gtb_lt in H. left. lia.
      * intros [H | [H _]]; [| contradiction].
        f_equal. apply Z.gtb_lt. lia.
  - intros Hsorted Hij.
    assert (Hi : 0 <= i).
    { assert (H : exists v, index d i = Some v) by eauto.
      apply index_Some_iff in H. lia. }
    assert (Hj : j < len d).
    { assert (H : exists v, index d j = Some v) by eauto.
      apply index_Some_iff in H. lia. }
    pose proof (Hsorted i j Hi Hij Hj) as H.
    rewrite (Less_Some d j i y x Hy Hx) in H. injection H as H.
    unfold Report.string_gt in H.
    destruct (Z.eqb_spec (Report.CodeLines y) (Report.CodeLines x)) as [E | E].
    + right. split; [lia |].
      destruct (Report.string_lt (Report.Name y) (Report.Name x)) eqn:E'.
      * left. apply string_lt_lex_gt, E'.
      * right. apply string_lt_total; assumption.
    + left. destruct (Z.gtb_spec (Report.CodeLines y) (Report.CodeLines x)) as [G | G];
        [discriminate | lia].
Qed.

Lemma example_report_sorted : Report.sorted example_report.
Proof.
  intros i j Hi Hij Hj. change (len example_report) with 3 in Hj.
  assert (H : (i = 0 /\ j = 1) \/ (i = 0 /\ j = 2) \/ (i = 1 /\ j = 2))
    by lia.
  destruct H as [[-> ->] | [[-> ->] | [-> ->]]]; vm_compute; reflexivity.
Defined.

Lemma Less_code_then_name_descending_witness :
  Report.sorted example_report /\
  Report.Less example_report 1 2 = Some true /\
  Report.Less example_report 0 1 = Some true /\
  (10 < 10 \/
   (10 = 10 /\
    (Report.lex_gt (bytes "Go") (bytes "C") \/ bytes "Go" = bytes "C"))).
Proof.
  split; [exact example_report_sorted |].
  split; [vm_compute; reflexivity |].
  split; [vm_compute; reflexivity |].
  refine (proj2 (Less_code_then_name_descending example_report 1 2
                   (Report.mkLResult (bytes "Go") 2 10 3 1 14)
                   (Report.mkLResult (bytes "C") 1 10 1 1 12)
                   eq_refl eq_refl) example_report_sorted _).
  vm_compute. reflexivity.
Defined.

(** ** Empty markers *)

(** The hypothesis on the markers is needed: with an empty line marker
    the first iteration indexes it out of range. *)
Lemma Update_empty_marker_panics :
  Update (mkCommenter [] nul nul false) [NL] zero_Stats = None.
Proof. reflexivity. Qed.

(** ** Traces *)

(** The trace lists the states the loop goes through: its entry at the
    position of a byte is the state after the scan up to that byte. *)
Lemma trace_scan l st c t pre b post :
  trace l st c = Some t -> c = pre ++ b :: post ->
  exists s,
    scan l st (pre ++ [b]) = Some s /\ nth_error t (List.length pre) = Some s.
Proof.
  revert st c t. induction pre as [| a pre IH]; intros st c t Ht ->.
  - simpl in *. unfold bind in *.
    destruct (step l st b) as [s |]; [| discriminate].
    destruct (trace l s post) as [t' |]; [| discriminate].
    injection Ht as <-. exists s. auto.
  - simpl in *. unfold bind in *.
    destruct (step l st a) as [s |]; [| discriminate].
    destruct (trace l s (pre ++ b :: post)) as [t' |] eqn:Et; [| discriminate].
    injection Ht as <-. simpl. eapply IH; [exact Et | reflexivity].
Qed.

(** A block comment stays open when the rest of the input holds no byte
    equal to the last byte of the end marker (and the depth cannot
    overflow). *)
Lemma stays_open_without_end_byte l st c :
  wf_Commenter l -> cursors_ok l st ->
  0 < inComment st -> inComment st + len c <= max_int ->
  (forall b, In b c -> index (EndComment l) (len (EndComment l) - 1) <> Some b) ->
  stays_open l st c = true.
Proof.
  intros Hwf. revert st.
  induction c as [| b c IH]; intros st Hok Hd Hmax Hlast; [reflexivity |].
  destruct (step_total l st b Hwf Hok) as (st1 & Hstep & Hok1).
  assert (Hlen : len (b :: c) = len c + 1)
    by (unfold len; simpl List.length; lia).
  assert (Hc0 : 0 <= len c) by (unfold len; lia).
  rewrite Hlen in Hmax.
  assert (Hi : incr (inComment st) = inComment st + 1).
  { apply incr_small. unfold min_int. rewrite half_eq. lia. }
  assert (Hd1 : 0 < inComment st1 <= inComment st + 1).
  { pose proof (step_depth _ _ _ _ Hstep)
      as (s1 & s2 & _ & _ & _ & _ & _ & Hep2 & H2 & H3).
    assert (E : end_completes l b s2 = false).
    { destruct (end_completes l b s2) eqn:E; [| reflexivity].
      apply completes_true in E. destruct E as (_ & E & E').
      destruct Hok as (_ & _ & Hep). unfold cursor_ok in Hep.
      rewrite Hep2 in E, E'. rewrite incr_small in E'.
      - exfalso. apply (Hlast b); [left; reflexivity |].
        rewrite <- E. f_equal. lia.
      - destruct Hwf as (_ & _ & He). unfold go_marker in He.
        unfold min_int. rewrite half_eq. lia. }
    rewrite E in H3. rewrite H3, H2, Hi.
    destruct (start_completes l b s1); [| lia].
    destruct (Z.gtb_spec (inComment st + 1) 1); destruct (Nesting l);
      simpl; lia. }
  assert (Hrest : stays_open l st1 c = true).
  { apply IH; try assumption; try lia.
    intros b' Hb'. apply Hlast. right. exact Hb'. }
  unfold stays_open in *. simpl. rewrite Hstep. simpl.
  destruct (trace l st1 c) as [t |]; [| discriminate]. simpl.
  rewrite Hrest, andb_true_r. apply Z.gtb_lt. lia.
Qed.

(** ** The counters are only a sink *)

Lemma line_matcher_set_stats l b st s0 :
  line_matcher l b (set_stats s0 st)
  = option_map (set_stats s0) (line_matcher l b st).
Proof.
  destruct st as [d il bl p1 p2 p3 s].
  unfold line_matcher, guarded_eq, bind, ret, set_stats. simpl.
  destruct (d =? 0); simpl; [| reflexivity].
  destruct (index (LineComment l) p1) as [x |]; simpl; [| reflexivity].
  destruct (Byte.eqb b x); [| reflexivity].
  destruct (incr p1 =? len (LineComment l)); reflexivity.
Qed.

Lemma start_matcher_set_stats l b st s0 :
  start_matcher l b (set_stats s0 st)
  = option_map (set_stats s0) (start_matcher l b st).
Proof.
  destruct st as [d il bl p1 p2 p3 s].
  unfold start_matcher, guarded_eq, bind, ret, set_stats. simpl.
  destruct (negb il); simpl; [| reflexivity].
  destruct (index (StartComment l) p2) as [x |]; simpl; [| reflexivity].
  destruct (Byte.eqb b x); [| reflexivity].
  destruct (incr p2 =? len (StartComment l)); [| reflexivity].
  destruct ((incr d >? 1) && negb (Nesting l)); reflexivity.
Qed.

Lemma end_matcher_set_stats l b st s0 :
  end_matcher l b (set_stats s0 st)
  = option_map (set_stats s0) (end_matcher l b st).
Proof.
  destruct st as [d il bl p1 p2 p3 s].
  unfold end_matcher, guarded_eq, bind, ret, set_stats. simpl.
  destruct (negb il && (d >? 0)); simpl; [| reflexivity].
  destruct (index (EndComment l) p3) as [x |]; simpl; [| reflexivity].
  destruct (Byte.eqb b x); [| reflexivity].
  destruct (incr p3 =? len (EndComment l)); [| reflexivity].
  destruct (d >? 0); reflexivity.
Qed.

Lemma track_blank_set_stats b st s0 :
  track_blank b (set_stats s0 st) = set_stats s0 (track_blank b st).
Proof. unfold track_blank. destruct (negb (is_space b)); reflexivity. Qed.

Lemma set_stats_stats st : set_stats (stats st) st = st.
Proof. destruct st; reflexivity. Qed.

Lemma finalize_line_set_stats st :
  exists k m bl,
    (k + m + bl = 1)%nat /\
    forall s0,
      finalize_line (set_stats s0 st)
      = set_stats (tally k m bl s0) (finalize_line st).
Proof.
  destruct st as [d il bl p1 p2 p3 s]. unfold finalize_line, set_stats. simpl.
  destruct ((d >? 0) || il); [| destruct bl].
  - exists 0%nat, 1%nat, 0%nat. split; [reflexivity |].
    intros [f t c b' m]. reflexivity.
  - exists 0%nat, 0%nat, 1%nat. split; [reflexivity |].
    intros [f t c b' m]. reflexivity.
  - exists 1%nat, 0%nat, 0%nat. split; [reflexivity |].
    intros [f t c b' m]. reflexivity.
Qed.

Lemma step_set_stats l st b st' :
  step l st b = Some st' ->
  exists k m bl,
    (k + m + bl = count_nl [b])%nat /\
    forall s0,
      step l (set_stats s0 st) b = Some (set_stats (tally k m bl s0) st').
Proof.
  intros H. unfold step, bind in H.
  destruct (line_matcher l b st) as [st1 |] eqn:E1; [| discriminate].
  destruct (start_matcher l b st1) as [st2 |] eqn:E2; [| discriminate].
  destruct (end_matcher l b st2) as [st3 |] eqn:E3; [| discriminate].
  unfold ret in H. injection H as <-.
  assert (Hrun : forall s0,
             step l (set_stats s0 st) b
             = Some (if Byte.eqb b NL
                     then finalize_line (set_stats s0 (track_blank b st3))
                     else set_stats s0 (track_blank b st3))).
  { intros s0. unfold step, bind.
    rewrite line_matcher_set_stats, E1. simpl.
    rewrite start_matcher_set_stats, E2. simpl.
    rewrite end_matcher_set_stats, E3. simpl.
    rewrite track_blank_set_stats. reflexivity. }
  rewrite eqb_NL_count. destruct (Byte.eqb b NL).
  - destruct (finalize_line_set_stats (track_blank b st3))
      as (k & m & bl & Hsum & Hf).
    exists k, m, bl. split; [exact Hsum |].
    intros s0. rewrite Hrun, Hf. reflexivity.
  - exists 0%nat, 0%nat, 0%nat. split; [reflexivity |].
    intros s0. rewrite Hrun, tally_000. reflexivity.
Qed.

Lemma scan_set_stats l st c st' :
  scan l st c = Some st' ->
  exists k m bl,
    (k + m + bl = count_nl c)%nat /\
    forall s0,
      scan l (set_stats s0 st) c = Some (set_stats (tally k m bl s0) st').
Proof.
  revert st. induction c as [| b c IH]; intros st; simpl.
  - unfold ret. intros H. injection H as <-.
    exists 0%nat, 0%nat, 0%nat. split; [reflexivity |].
    intros s0. rewrite tally_000. reflexivity.
  - unfold bind. destruct (step l st b) as [st1 |] eqn:E; [| discriminate].
    intros H. apply IH in H. destruct H as (k & m & bl & Hsum & Hscan).
    apply step_set_stats in E. destruct E as (k1 & m1 & bl1 & Hsum1 & Hstep).
    exists (k + k1)%nat, (m + m1)%nat, (bl + bl1)%nat.
    split; [rewrite count_nl_cons; lia |].
    intros s0. rewrite Hstep, Hscan, tally_tally. reflexivity.
Qed.

Lemma start_set_stats s s0 :
  start s = set_stats (incr_FileCount s) (start s0).
Proof. reflexivity. Qed.

(** The effect of [Update] on any counters, read off one run. *)
Lemma Update_uniform l c s0 s0' :
  Update l c s0 = Some s0' ->
  exists k m bl,
    (k + m + bl = count_nl c)%nat /\
    forall s, Update l c s = Some (tally k m bl (incr_FileCount s)).
Proof.
  intros H. apply Update_Some in H. destruct H as (st & H & _).
  apply scan_set_stats in H. destruct H as (k & m & bl & Hsum & Hscan).
  exists k, m, bl. split; [exact Hsum |].
  intros s. unfold Update. rewrite (start_set_stats s s0), Hscan.
  reflexivity.
Qed.

(** X1: what [Update] adds does not depend on the counters it adds to.
    If it returns for some counters, then there are numbers of code,
    comment and blank lines, summing to the number of newline bytes,
    such that for all counters [s] it returns [s] with the file count
    incremented once and each line counter incremented that many
    times. *)
Theorem Update_adds_a_fixed_delta l c s0 s0' :
  Update l c s0 = Some s0' ->
  exists code comment blank : nat,
    (code + comment + blank = count_nl c)%nat /\
    forall s,
      Update l c s
      = Some (mkStats (incr (FileCount s))
                      (add_lines (count_nl c) (TotalLines s))
                      (add_lines code (CodeLines s))
                      (add_lines blank (BlankLines s))
                      (add_lines comment (CommentLines s))).
Proof.
  intros H. apply Update_uniform in H.
  destruct H as (k & m & bl & Hsum & Hall).
  exists k, m, bl. split; [exact Hsum |].
  intros s. rewrite Hall. unfold tally. simpl. rewrite Hsum. reflexivity.
Qed.

Lemma Update_adds_a_fixed_delta_witness :
  Update cComments (line "x = 1" ++ line "// c" ++ line "") zero_Stats
  = Some (mkStats 1 3 1 1 1) /\
  exists code comment blank : nat,
    (code + comment + blank = 3)%nat /\
    Update cComments (line "x = 1" ++ line "// c" ++ line "")
           (mkStats 7 100 50 20 30)
    = Some (mkStats 8 (add_lines 3 100) (add_lines code 50)
                    (add_lines blank 20) (add_lines comment 30)).
Proof.
  assert (H : Update cComments (line "x = 1" ++ line "// c" ++ line "")
                zero_Stats = Some (mkStats 1 3 1 1 1))
    by (vm_compute; reflexivity).
  split; [exact H |].
  destruct (Update_adds_a_fixed_delta _ _ _ _ H)
    as (k & m & bl & Hsum & Hall).
  exists k, m, bl. split; [exact Hsum |]. apply (Hall (mkStats 7 100 50 20 30)).
Defined.

Lemma tally_incr_FileCount k m bl s :
  tally k m bl (incr_FileCount s) = incr_FileCount (tally k m bl s).
Proof. reflexivity. Qed.

Lemma tally_comm k m bl k' m' bl' s :
  tally k m bl (tally k' m' bl' s) = tally k' m' bl' (tally k m bl s).
Proof.
  rewrite !tally_tally. f_equal; lia.
Qed.

(** X2: the order in which two files are counted into the same counters
    does not matter: if counting [c1] and then [c2] returns [s12], so
    does counting [c2] and then [c1]. *)
Theorem Update_order_irrelevant l1 c1 l2 c2 s s1 s12 :
  Update l1 c1 s = Some s1 ->
  Update l2 c2 s1 = Some s12 ->
  exists s2, Update l2 c2 s = Some s2 /\ Update l1 c1 s2 = Some s12.
Proof.
  intros H1 H2.
  destruct (Update_uniform _ _ _ _ H1) as (k1 & m1 & b1 & _ & A1).
  destruct (Update_uniform _ _ _ _ H2) as (k2 & m2 & b2 & _ & A2).
  rewrite A1 in H1. injection H1 as <-.
  rewrite A2 in H2. injection H2 as <-.
  exists (tally k2 m2 b2 (incr_FileCount s)).
  split; [apply A2 |]. rewrite A1.
  rewrite !tally_incr_FileCount, tally_comm. reflexivity.
Qed.

Lemma Update_order_irrelevant_witness :
  exists s2,
    Update shComments (line "# sh") zero_Stats = Some s2 /\
    Update cComments (line "int x;") s2 = Some (mkStats 2 2 1 0 1).
Proof.
  apply (Update_order_irrelevant cComments (line "int x;")
           shComments (line "# sh") zero_Stats (mkStats 1 1 1 0 0)
           (mkStats 2 2 1 0 1));
    vm_compute; reflexivity.
Defined.

(** ** Bounds on the depth *)

Lemma completes_guard g b m p : completes g b m p = true -> g = true.
Proof. intros H. apply completes_true in H. tauto. Qed.

Lemma step_depth_bounds l st b st' :
  step l st b = Some st' ->
  0 <= inComment st < max_int ->
  0 <= inComment st' <= inComment st + 1 /\
  (Nesting l = false -> inComment st <= 1 -> inComment st' <= 1).
Proof.
  intros H Hd. apply step_depth in H.
  destruct H as (s1 & s2 & _ & _ & _ & _ & _ & _ & H2 & H3).
  assert (Hi : incr (inComment st) = inComment st + 1).
  { apply incr_small. unfold min_int. rewrite half_eq. lia. }
  rewrite Hi in H2.
  assert (B2 : inComment st <= inComment s2 <= inComment st + 1 \/
               (inComment s2 = 1 /\ 1 < inComment st + 1)).
  { rewrite H2. destruct (start_completes l b s1); [| lia].
    destruct (Z.gtb_spec (inComment st + 1) 1); destruct (Nesting l);
      simpl; lia. }
  assert (N2 : Nesting l = false -> inComment st <= 1 -> inComment s2 <= 1).
  { intros Hn Hle. rewrite H2, Hn.
    destruct (start_completes l b s1); [| lia].
    destruct (Z.gtb_spec (inComment st + 1) 1); simpl; lia. }
  destruct (end_completes l b s2) eqn:E.
  - apply completes_guard in E. apply andb_true_iff in E.
    destruct E as [_ E]. apply Z.gtb_lt in E.
    assert (Hdec : decr (inComment s2) = inComment s2 - 1).
    { apply decr_small. unfold min_int. rewrite half_eq. lia. }
    rewrite H3, Hdec. split; [lia |]. intros Hn Hle.
    specialize (N2 Hn Hle). lia.
  - rewrite H3. split; [lia |]. exact N2.
Qed.

Lemma scan_depth_bounded l st c st' :
  scan l st c = Some st' ->
  0 <= inComment st -> inComment st + len c <= max_int ->
  0 <= inComment st' <= inComment st + len c.
Proof.
  revert st. induction c as [| b c IH]; intros st; simpl.
  - unfold ret, len. simpl. intros H. injection H as <-. lia.
  - unfold bind. destruct (step l st b) as [st1 |] eqn:E; [| discriminate].
    intros H Hd Hmax.
    assert (Hlen : len (b :: c) = len c + 1)
      by (unfold len; simpl List.length; lia).
    assert (Hc0 : 0 <= len c) by (unfold len; lia).
    rewrite Hlen in *.
    destruct (step_depth_bounds _ _ _ _ E) as (B & _); [lia |].
    specialize (IH st1 H). lia.
Qed.

Lemma scan_depth_flat l st c st' :
  Nesting l = false ->
  scan l st c = Some st' ->
  0 <= inComment st <= 1 -> 0 <= inComment st' <= 1.
Proof.
  intros Hn. revert st. induction c as [| b c IH]; intros st; simpl.
  - unfold ret. intros H. injection H as <-. auto.
  - unfold bind. destruct (step l st b) as [st1 |] eqn:E; [| discriminate].
    intros H Hd. apply (IH st1 H).
    destruct (step_depth_bounds _ _ _ _ E) as (B & N).
    { rewrite max_int_eq. lia. }
    split; [lia | apply N; [exact Hn | lia]].
Qed.

(** X3: during a scan the depth of block comments is never negative;
    after a prefix [pre] of the input (a slice, so of [int] length) it
    is at most the number of bytes read, and for a descriptor without
    nesting it is 0 or 1. *)
Theorem depth_is_bounded l pre post s s' :
  Update l (pre ++ post) s = Some s' ->
  len pre <= max_int ->
  exists st,
    scan l (start s) pre = Some st /\
    0 <= inComment st <= len pre /\
    (Nesting l = false -> inComment st <= 1).
Proof.
  intros H Hlen. apply Update_Some in H. destruct H as (st' & H & _).
  rewrite scan_app in H. unfold bind in H.
  destruct (scan l (start s) pre) as [st |] eqn:E; [| discriminate].
  exists st. split; [reflexivity |]. split.
  - apply (scan_depth_bounded l (start s) pre st E); simpl; lia.
  - intros Hn. apply (scan_depth_flat l (start s) pre st Hn E). simpl. lia.
Qed.

Lemma depth_is_bounded_witness :
  exists st,
    scan cNesting (start zero_Stats) (bytes "/* /* /*") = Some st /\
    0 <= inComment st <= len (bytes "/* /* /*") /\
    (Nesting cNesting = false -> inComment st <= 1).
Proof.
  apply (depth_is_bounded cNesting (bytes "/* /* /*") (line " x")
           zero_Stats (mkStats 1 1 0 0 1)).
  - vm_compute. reflexivity.
  - vm_compute. discriminate.
Defined.

(** ** Lines outside comments *)

Lemma avoids_not_last m c b :
  avoids m c = true -> In b c -> last_byte m <> Some b.
Proof.
  unfold avoids. destruct (last_byte m) as [x |]; [| discriminate].
  intros H Hb E. injection E as ->.
  apply negb_true_iff in H.
  assert (Hex : existsb (Byte.eqb b) c = true).
  { apply existsb_exists. exists b. split; [exact Hb |].
    apply byte_dec_lb. reflexivity. }
  congruence.
Qed.

Lemma completes_last_byte g b m p :
  go_marker m -> cursor_ok m p -> completes g b m p = true ->
  last_byte m = Some b.
Proof.
  unfold go_marker, cursor_ok. intros Hm Hp H.
  apply completes_true in H. destruct H as (_ & Hb & Hi).
  rewrite incr_small in Hi by (unfold min_int; rewrite half_eq; lia).
  unfold last_byte. rewrite <- Hb. f_equal. lia.
Qed.

(** One iteration outside comments on a byte that completes neither
    the line marker nor the block-start marker. *)
Lemma step_outside l st b :
  wf_Commenter l -> cursors_ok l st ->
  inComment st = 0 -> inLComment st = false ->
  last_byte (LineComment l) <> Some b ->
  last_byte (StartComment l) <> Some b ->
  exists st',
    step l st b = Some st' /\ cursors_ok l st' /\
    inComment st' = 0 /\ inLComment st' = false /\
    blank st' = (if Byte.eqb b NL then true else blank st && is_space b) /\
    stats st' =
      (if Byte.eqb b NL
       then if blank st && is_space b
            then tally 0 0 1 (stats st) else tally 1 0 0 (stats st)
       else stats st).
Proof.
  intros Hwf Hok Hd Hil Hl Hs.
  destruct (step_total l st b Hwf Hok) as (st' & Hstep & Hok').
  exists st'. split; [exact Hstep |]. split; [exact Hok' |].
  destruct Hwf as (Wl & Ws & We). destruct Hok as (Cl & Cs & Ce).
  assert (El : line_completes l b st = false).
  { destruct (line_completes l b st) eqn:E; [| reflexivity].
    apply completes_last_byte in E; auto. contradiction. }
  pose proof (step_depth _ _ _ _ Hstep)
    as (s1 & s2 & Hil1 & Hd1 & Hsp1 & _ & Hil2 & _ & H2 & H3).
  assert (Es : start_completes l b s1 = false).
  { destruct (start_completes l b s1) eqn:E; [| reflexivity].
    apply completes_last_byte in E; auto; [contradiction |].
    rewrite Hsp1. exact Cs. }
  rewrite Es in H2.
  assert (Ee : end_completes l b s2 = false).
  { unfold end_completes. rewrite H2, Hd. simpl. rewrite andb_false_r.
    reflexivity. }
  rewrite Ee, H2, Hd in H3.
  pose proof (step_view _ _ _ _ Hstep) as (Hst & Hil' & Hbl').
  rewrite H3, Hil, El in Hst. rewrite Hil, El in Hil'. simpl in Hst, Hil'.
  rewrite Hil'. split; [exact H3 |].
  split; [destruct (Byte.eqb b NL); reflexivity |].
  split; [exact Hbl' | exact Hst].
Qed.

Lemma scan_outside l st w :
  wf_Commenter l -> cursors_ok l st ->
  inComment st = 0 -> inLComment st = false ->
  ~ In NL w ->
  avoids (LineComment l) w = true -> avoids (StartComment l) w = true ->
  exists st',
    scan l st w = Some st' /\ cursors_ok l st' /\
    inComment st' = 0 /\ inLComment st' = false /\
    blank st' = blank st && forallb is_space w /\
    stats st' = stats st.
Proof.
  intros Hwf. revert st.
  induction w as [| b w IH]; intros st Hok Hd Hil Hnl Al As.
  - exists st. simpl. rewrite andb_true_r. auto 10.
  - assert (Hb : b <> NL) by (intros ->; apply Hnl; left; reflexivity).
    destruct (step_outside l st b Hwf Hok Hd Hil)
      as (st1 & Hstep & Hok1 & Hd1 & Hil1 & Hbl1 & Hs1).
    { apply (avoids_not_last _ _ _ Al). left. reflexivity. }
    { apply (avoids_not_last _ _ _ As). left. reflexivity. }
    rewrite (eqb_NL_false b Hb) in Hbl1, Hs1.
    destruct (IH st1 Hok1 Hd1 Hil1)
      as (st' & Hscan & Hok' & Hd' & Hil' & Hbl' & Hs').
    { intros Hin. apply Hnl. right. exact Hin. }
    { unfold avoids in *. destruct (last_byte (LineComment l)); [| reflexivity].
      simpl in Al. apply negb_true_iff, orb_false_iff in Al.
      apply negb_true_iff. tauto. }
    { unfold avoids in *. destruct (last_byte (StartComment l)); [| reflexivity].
      simpl in As. apply negb_true_iff, orb_false_iff in As.
      apply negb_true_iff. tauto. }
    exists st'. simpl. rewrite Hstep. simpl.
    split; [exact Hscan |]. split; [exact Hok' |].
    split; [exact Hd' |]. split; [exact Hil' |].
    split; [rewrite Hbl', Hbl1, andb_assoc; reflexivity | congruence].
Qed.

(** X4: outside comments (depth 0, no line comment), a line none of
    whose bytes, newline included, is the last byte of the line marker
    or of the block-start marker is counted once: as a blank line when
    all its bytes are spaces, tabs or carriage returns, as a code line
    otherwise; the scan is then still outside comments, at the start of
    a fresh line. *)
Theorem line_outside_comments_is_blank_or_code l st w :
  wf_Commenter l -> cursors_ok l st ->
  inComment st = 0 -> inLComment st = false -> blank st = true ->
  ~ In NL w ->
  avoids (LineComment l) (w ++ [NL]) = true ->
  avoids (StartComment l) (w ++ [NL]) = true ->
  exists st',
    scan l st (w ++ [NL]) = Some st' /\
    stats st' =
      (if forallb is_space w
       then tally 0 0 1 (stats st) else tally 1 0 0 (stats st)) /\
    inComment st' = 0 /\ inLComment st' = false /\ blank st' = true.
Proof.
  intros Hwf Hok Hd Hil Hbl Hnl Al As.
  assert (Al' : avoids (LineComment l) w = true /\
                last_byte (LineComment l) <> Some NL).
  { split.
    - unfold avoids in *. destruct (last_byte (LineComment l)); [| reflexivity].
      rewrite existsb_app in Al. apply negb_true_iff, orb_false_iff in Al.
      apply negb_true_iff. tauto.
    - apply (avoids_not_last _ _ _ Al), in_or_app. right. left. reflexivity. }
  assert (As' : avoids (StartComment l) w = true /\
                last_byte (StartComment l) <> Some NL).
  { split.
    - unfold avoids in *. destruct (last_byte (StartComment l)); [| reflexivity].
      rewrite existsb_app in As. apply negb_true_iff, orb_false_iff in As.
      apply negb_true_iff. tauto.
    - apply (avoids_not_last _ _ _ As), in_or_app. right. left. reflexivity. }
  destruct Al' as (Al1 & Al2). destruct As' as (As1 & As2).
  destruct (scan_outside l st w Hwf Hok Hd Hil Hnl Al1 As1)
    as (st1 & Hscan & Hok1 & Hd1 & Hil1 & Hbl1 & Hs1).
  destruct (step_outside l st1 NL Hwf Hok1 Hd1 Hil1 Al2 As2)
    as (st' & Hstep & _ & Hd' & Hil' & Hbl' & Hs').
  rewrite eqb_NL_true in Hbl', Hs'.
  exists st'. rewrite scan_app, Hscan. simpl. rewrite Hstep. simpl.
  split; [reflexivity |].
  rewrite Hs', Hbl1, Hbl, Hs1. simpl. rewrite andb_true_r.
  auto.
Qed.

Lemma line_outside_comments_is_blank_or_code_witness :
  exists st',
    scan cComments (start zero_Stats) ([SPACE; TAB; CR] ++ [NL]) = Some st' /\
    stats st' =
      (if forallb is_space [SPACE; TAB; CR]
       then tally 0 0 1 (stats (start zero_Stats))
       else tally 1 0 0 (stats (start zero_Stats))) /\
    inComment st' = 0 /\ inLComment st' = false /\ blank st' = true.
Proof.
  assert (Hwf : wf_Commenter cComments) by wf_by_computation.
  apply (line_outside_comments_is_blank_or_code cComments (start zero_Stats)
           [SPACE; TAB; CR] Hwf).
  - vm_compute. intuition discriminate.
  - reflexivity.
  - reflexivity.
  - reflexivity.
  - vm_compute. intuition discriminate.
  - vm_compute. reflexivity.
  - vm_compute. reflexivity.
Defined.

(** ** [Less] is a strict order on the keys of the rows *)

Lemma Less_less d i j x y :
  index d i = Some x -> index d j = Some y ->
  Report.Less d i j = Some (Rows.less x y).
Proof. intros Hx Hy. rewrite (Less_Some d i j x y Hx Hy). reflexivity. Qed.

Lemma string_lt_trans a b c :
  Report.string_lt a b = true -> Report.string_lt b c = true ->
  Report.string_lt a c = true.
Proof.
  revert b c. induction a as [| x a IH]; intros [| y b] [| z c]; simpl;
    try discriminate; try reflexivity.
  destruct (N.ltb_spec (Byte.to_N x) (Byte.to_N y)) as [Hxy | Hxy].
  - intros _.
    destruct (N.ltb_spec (Byte.to_N y) (Byte.to_N z)) as [Hyz | Hyz].
    + intros _. destruct (N.ltb_spec (Byte.to_N x) (Byte.to_N z)); [auto | lia].
    + destruct (N.ltb_spec (Byte.to_N z) (Byte.to_N y)); [discriminate |].
      intros _. destruct (N.ltb_spec (Byte.to_N x) (Byte.to_N z)); [auto | lia].
  - destruct (N.ltb_spec (Byte.to_N y) (Byte.to_N x)) as [Hyx | Hyx];
      [discriminate |].
    intros Hab.
    destruct (N.ltb_spec (Byte.to_N y) (Byte.to_N z)) as [Hyz | Hyz].
    + intros _. destruct (N.ltb_spec (Byte.to_N x) (Byte.to_N z)); [auto | lia].
    + destruct (N.ltb_spec (Byte.to_N z) (Byte.to_N y)) as [Hzy | Hzy];
        [discriminate |].
      intros Hbc.
      destruct (N.ltb_spec (Byte.to_N x) (Byte.to_N z)); [reflexivity |].
      destruct (N.ltb_spec (Byte.to_N z) (Byte.to_N x)); [lia |].
      eapply IH; eassumption.
Qed.

Lemma string_lt_asym a b :
  Report.string_lt a b = true -> Report.string_lt b a = false.
Proof.
  intros H. destruct (Report.string_lt b a) eqn:E; [| reflexivity].
  pose proof (string_lt_trans _ _ _ H E) as Hc.
  rewrite string_lt_irrefl in Hc. discriminate.
Qed.

Lemma less_irrefl x : Rows.less x x = false.
Proof.
  unfold Rows.less, Report.string_gt. rewrite Z.eqb_refl.
  apply string_lt_irrefl.
Qed.

Lemma less_trans x y z :
  Rows.less x y = true -> Rows.less y z = true -> Rows.less x z = true.
Proof.
  unfold Rows.less, Report.string_gt.
  destruct (Z.eqb_spec (Report.CodeLines x) (Report.CodeLines y)) as [Exy | Exy];
    destruct (Z.eqb_spec (Report.CodeLines y) (Report.CodeLines z)) as [Eyz | Eyz];
    destruct (Z.eqb_spec (Report.CodeLines x) (Report.CodeLines z)) as [Exz | Exz];
    intros H1 H2; try lia;
    try (apply Z.gtb_lt in H1); try (apply Z.gtb_lt in H2);
    try (apply Z.gtb_lt); try lia.
  eapply string_lt_trans; eassumption.
Qed.

Lemma less_asym x y : Rows.less x y = true -> Rows.less y x = false.
Proof.
  intros H. destruct (Rows.less y x) eqn:E; [| reflexivity].
  pose proof (less_trans _ _ _ H E) as Hc.
  rewrite less_irrefl in Hc. discriminate.
Qed.

Lemma less_total x y :
  Rows.less x y = false -> Rows.less y x = false ->
  Report.CodeLines x = Report.CodeLines y /\ Report.Name x = Report.Name y.
Proof.
  unfold Rows.less, Report.string_gt.
  destruct (Z.eqb_spec (Report.CodeLines x) (Report.CodeLines y)) as [E | E].
  - rewrite E, Z.eqb_refl. intros H1 H2. split; [reflexivity |].
    apply string_lt_total; assumption.
  - destruct (Z.eqb_spec (Report.CodeLines y) (Report.CodeLines x)); [lia |].
    intros H1 H2.
    destruct (Z.gtb_spec (Report.CodeLines x) (Report.CodeLines y));
      [discriminate |].
    destruct (Z.gtb_spec (Report.CodeLines y) (Report.CodeLines x));
      [discriminate | lia].
Qed.

(** X5: on the rows of any report [Less] is a strict order, as
    [sort.Sort] needs: no row is less than itself, two rows are never
    less than each other, and less than is transitive. *)
Theorem Less_strict_order d i j k x y z :
  index d i = Some x -> index d j = Some y -> index d k = Some z ->
  Report.Less d i i = Some false /\
  (Report.Less d i j = Some true -> Report.Less d j i = Some false) /\
  (Report.Less d i j = Some true -> Report.Less d j k = Some true ->
   Report.Less d i k = Some true).
Proof.
  intros Hx Hy Hz.
  rewrite (Less_less d i i x x Hx Hx), (Less_less d i j x y Hx Hy),
    (Less_less d j i y x Hy Hx), (Less_less d j k y z Hy Hz),
    (Less_less d i k x z Hx Hz).
  split; [| split].
  - f_equal. apply less_irrefl.
  - intros H. injection H as H. f_equal. apply less_asym, H.
  - intros H1 H2. injection H1 as H1. injection H2 as H2.
    f_equal. eapply less_trans; eassumption.
Qed.

Lemma Less_strict_order_witness :
  Report.Less example_report 0 0 = Some false /\
  Report.Less example_report 0 2 = Some true.
Proof.
  destruct (Less_strict_order example_report 0 1 2 _ _ _
              eq_refl eq_refl eq_refl) as (H1 & _ & H3).
  split; [exact H1 |].
  apply H3; vm_compute; reflexivity.
Defined.

(** X6: two rows of which neither is [Less] than the other have the
    same number of code lines and the same name: the order is total on
    the pairs of code-line count and name. *)
Theorem Less_total_on_keys d i j x y :
  index d i = Some x -> index d j = Some y ->
  Report.Less d i j = Some false -> Report.Less d j i = Some false ->
  Report.CodeLines x = Report.CodeLines y /\ Report.Name x = Report.Name y.
Proof.
  intros Hx Hy.
  rewrite (Less_less d i j x y Hx Hy), (Less_less d j i y x Hy Hx).
  intros H1 H2. injection H1 as H1. injection H2 as H2.
  apply less_total; assumption.
Qed.

Lemma Less_total_on_keys_witness :
  Report.CodeLines (Report.mkLResult (bytes "Go") 2 10 3 1 14)
  = Report.CodeLines (Report.mkLResult (bytes "Go") 5 10 0 0 10) /\
  bytes "Go" = bytes "Go".
Proof.
  apply (Less_total_on_keys
           [Report.mkLResult (bytes "Go") 2 10 3 1 14;
            Report.mkLResult (bytes "Go") 5 10 0 0 10] 0 1);
    vm_compute; reflexivity.
Defined.

(** ** [Swap] *)

Lemma index_of_nat {A : Type} (m : list A) (n : nat) :
  index m (Z.of_nat n) = nth_error m n.
Proof.
  unfold index. destruct (Z.ltb_spec (Z.of_nat n) 0); [lia |].
  rewrite Nat2Z.id. reflexivity.
Qed.

Lemma index_neg {A : Type} (m : list A) (i : Z) : i < 0 -> index m i = None.
Proof.
  intros H. unfold index. destruct (Z.ltb_spec i 0); [reflexivity | lia].
Qed.

Lemma index_None_iff {A : Type} (m : list A) (i : Z) :
  index m i = None <-> ~ (0 <= i < len m).
Proof.
  pose proof (index_Some_iff m i) as H.
  destruct (index m i) as [x |].
  - split; [discriminate |]. intros Hn. exfalso. apply Hn, H. eauto.
  - split; [| reflexivity]. intros _ Hr. apply H in Hr.
    destruct Hr as [x Hx]. discriminate.
Qed.

Lemma length_set_nth {A : Type} (m : list A) n x :
  List.length (set_nth m n x) = List.length m.
Proof.
  revert n. induction m as [| y m IH]; intros [| n]; simpl; auto.
Qed.

Lemma nth_error_set_nth {A : Type} (m : list A) n x k :
  (n < List.length m)%nat ->
  nth_error (set_nth m n x) k = if Nat.eqb k n then Some x else nth_error m k.
Proof.
  revert n k. induction m as [| y m IH]; intros n k Hn; simpl in Hn; [lia |].
  destruct n as [| n], k as [| k]; simpl; try reflexivity.
  apply IH. lia.
Qed.

Lemma store_Some {A : Type} (m : list A) i x :
  0 <= i < len m -> store m i x = Some (set_nth m (Z.to_nat i) x).
Proof.
  intros H. unfold store.
  destruct (Z.ltb_spec i 0); [lia |].
  destruct (Z.leb_spec (len m) i); [lia |]. reflexivity.
Qed.

Lemma store_None {A : Type} (m : list A) i x :
  ~ (0 <= i < len m) -> store m i x = None.
Proof.
  intros H. unfold store.
  destruct (Z.ltb_spec i 0); [reflexivity |].
  destruct (Z.leb_spec (len m) i); [reflexivity | lia].
Qed.

Lemma len_set_nth {A : Type} (m : list A) n x : len (set_nth m n x) = len m.
Proof. unfold len. rewrite length_set_nth. reflexivity. Qed.

Lemma index_set_nth {A : Type} (m : list A) i x k :
  0 <= i < len m ->
  index (set_nth m (Z.to_nat i) x) k = if k =? i then Some x else index m k.
Proof.
  intros Hi. destruct (Z.ltb_spec k 0) as [Hk | Hk].
  - rewrite !index_neg by lia. destruct (Z.eqb_spec k i); [lia | reflexivity].
  - unfold index. destruct (Z.ltb_spec k 0); [lia |].
    rewrite nth_error_set_nth by (unfold len in Hi; lia).
    destruct (Z.eqb_spec k i) as [-> | Hne].
    + rewrite Nat.eqb_refl. reflexivity.
    + destruct (Nat.eqb_spec (Z.to_nat k) (Z.to_nat i)); [lia | reflexivity].
Qed.

Lemma index_ext {A : Type} (m m' : list A) :
  (forall k, index m k = index m' k) -> m = m'.
Proof.
  intros H. apply nth_error_ext. intros n.
  rewrite <- !index_of_nat. apply H.
Qed.

Lemma Swap_Some d i j x y :
  index d i = Some x -> index d j = Some y ->
  Rows.Swap d i j
  = Some (set_nth (set_nth d (Z.to_nat i) y) (Z.to_nat j) x).
Proof.
  intros Hx Hy.
  assert (Hi : 0 <= i < len d) by (apply index_Some_iff; eauto).
  assert (Hj : 0 <= j < len d) by (apply index_Some_iff; eauto).
  unfold Rows.Swap. rewrite Hx, Hy. simpl.
  rewrite (store_Some d i y Hi). simpl.
  apply store_Some. rewrite len_set_nth. exact Hj.
Qed.

Lemma index_Swap {A : Type} (d : list A) i j x y k :
  index d i = Some x -> index d j = Some y ->
  index (set_nth (set_nth d (Z.to_nat i) y) (Z.to_nat j) x) k
  = if k =? j then Some x else if k =? i then Some y else index d k.
Proof.
  intros Hx Hy.
  assert (Hi : 0 <= i < len d) by (apply index_Some_iff; eauto).
  assert (Hj : 0 <= j < len d) by (apply index_Some_iff; eauto).
  rewrite index_set_nth by (rewrite len_set_nth; exact Hj).
  rewrite index_set_nth by exact Hi. reflexivity.
Qed.

(** X7: [Swap] panics exactly when one of the two indices is out of
    range.  Otherwise it exchanges the rows at [i] and [j] and leaves
    the others in place: the length is kept, the result is a
    permutation of the rows, and swapping again gives the report back. *)
Theorem Swap_exchanges_two_rows d i j :
  (Rows.Swap d i j = None <-> index d i = None \/ index d j = None) /\
  forall x y,
    index d i = Some x -> index d j = Some y ->
    exists d',
      Rows.Swap d i j = Some d' /\
      (forall k, index d' k
                 = if k =? j then Some x
                   else if k =? i then Some y else index d k) /\
      Rows.Len d' = Rows.Len d /\
      Permutation d d' /\
      Rows.Swap d' i j = Some d.
Proof.
  split.
  - destruct (index d i) as [x |] eqn:Hx; destruct (index d j) as [y |] eqn:Hy.
    + rewrite (Swap_Some d i j x y Hx Hy).
      split; [discriminate | intros [H | H]; discriminate].
    + unfold Rows.Swap. rewrite Hy. simpl. tauto.
    + unfold Rows.Swap. rewrite Hx. simpl.
      destruct (index d j); simpl; tauto.
    + unfold Rows.Swap. rewrite Hy. simpl. tauto.
  - intros x y Hx Hy.
    assert (Hi : 0 <= i < len d) by (apply index_Some_iff; eauto).
    assert (Hj : 0 <= j < len d) by (apply index_Some_iff; eauto).
    set (d' := set_nth (set_nth d (Z.to_nat i) y) (Z.to_nat j) x).
    assert (Hidx : forall k, index d' k
                     = if k =? j then Some x
                       else if k =? i then Some y else index d k)
      by (intros k; apply index_Swap; assumption).
    assert (Hlen : len d' = len d)
      by (unfold d'; rewrite !len_set_nth; reflexivity).
    exists d'. split; [apply Swap_Some; assumption |].
    split; [exact Hidx |]. split; [exact Hlen |]. split.
    + apply Permutation_nth_error. split.
      * unfold len in Hlen. lia.
      * exists (fun n => if Nat.eqb n (Z.to_nat j) then Z.to_nat i
                         else if Nat.eqb n (Z.to_nat i) then Z.to_nat j
                              else n).
        split.
        -- intros a b.
           destruct (Nat.eqb_spec a (Z.to_nat j));
             destruct (Nat.eqb_spec b (Z.to_nat j));
             destruct (Nat.eqb_spec a (Z.to_nat i));
             destruct (Nat.eqb_spec b (Z.to_nat i)); lia.
        -- intros n. rewrite <- !index_of_nat, Hidx.
           destruct (Z.eqb_spec (Z.of_nat n) j) as [E | E].
           ++ destruct (Nat.eqb_spec n (Z.to_nat j)); [| lia].
              rewrite Z2Nat.id by lia. symmetry. exact Hx.
           ++ destruct (Nat.eqb_spec n (Z.to_nat j)); [lia |].
              destruct (Z.eqb_spec (Z.of_nat n) i) as [E' | E'].
              ** destruct (Nat.eqb_spec n (Z.to_nat i)); [| lia].
                 rewrite Z2Nat.id by lia. symmetry. exact Hy.
              ** destruct (Nat.eqb_spec n (Z.to_nat i)); [lia |].
                 reflexivity.
    + assert (Hx' : index d' i = Some (if i =? j then x else y)).
      { rewrite Hidx, Z.eqb_refl. destruct (i =? j); reflexivity. }
      assert (Hy' : index d' j = Some x)
        by (rewrite Hidx, Z.eqb_refl; reflexivity).
      rewrite (Swap_Some d' i j _ _ Hx' Hy'). apply f_equal.
      apply index_ext. intros k.
      rewrite (index_Swap d' i j _ _ k Hx' Hy'), Hidx.
      destruct (Z.eqb_spec k j) as [-> | Ekj].
      * destruct (Z.eqb_spec j i) as [-> | Eji].
        -- rewrite Z.eqb_refl. congruence.
        -- destruct (Z.eqb_spec i j); [lia |]. congruence.
      * destruct (Z.eqb_spec k i) as [-> | Eki]; [congruence | reflexivity].
Qed.

Lemma Swap_exchanges_two_rows_witness :
  exists d',
    Rows.Swap example_report 0 2 = Some d' /\
    Rows.Len d' = Rows.Len example_report /\
    Permutation example_report d' /\
    Rows.Swap d' 0 2 = Some example_report.
Proof.
  destruct (proj2 (Swap_exchanges_two_rows example_report 0 2) _ _
              eq_refl eq_refl) as (d' & H1 & _ & H2 & H3 & H4).
  exists d'. auto.
Defined.

(** ** The rows of [printInfo] *)

Lemma collect_eq it d total :
  Rows.collect it d total
  = (d ++ map (fun e => Rows.row (fst e) (snd e)) it,
     fold_left Rows.Add (map (fun e => Rows.row (fst e) (snd e)) it) total).
Proof.
  revert d total. induction it as [| [n i] it IH]; intros d total; simpl.
  - rewrite app_nil_r. reflexivity.
  - rewrite IH, <- app_assoc. reflexivity.
Qed.

Lemma fold_Add_fields it t :
  in_range (Report.FileCount t) -> in_range (Report.CodeLines t) ->
  in_range (Report.CommentLines t) -> in_range (Report.BlankLines t) ->
  in_range (Report.TotalLines t) ->
  fold_left Rows.Add (map (fun e => Rows.row (fst e) (snd e)) it) t
  = Report.mkLResult (Report.Name t)
      (wrap (Report.FileCount t + sum_over FileCount it))
      (wrap (Report.CodeLines t + sum_over CodeLines it))
      (wrap (Report.CommentLines t + sum_over CommentLines it))
      (wrap (Report.BlankLines t + sum_over BlankLines it))
      (wrap (Report.TotalLines t + sum_over TotalLines it)).
Proof.
  revert t. induction it as [| [n i] it IH]; intros t H1 H2 H3 H4 H5; simpl.
  - rewrite !Z.add_0_r, !wrap_small by assumption. destruct t; reflexivity.
  - rewrite IH; simpl; try apply wrap_in_range.
    rewrite !wrap_add_l, !Z.add_assoc. reflexivity.
Qed.

Lemma rows_eq it :
  Rows.rows it
  = map (fun e => Rows.row (fst e) (snd e)) it
    ++ [Report.mkLResult (bytes "Total")
          (wrap (sum_over FileCount it)) (wrap (sum_over CodeLines it))
          (wrap (sum_over CommentLines it)) (wrap (sum_over BlankLines it))
          (wrap (sum_over TotalLines it))].
Proof.
  unfold Rows.rows. rewrite collect_eq. simpl.
  rewrite fold_Add_fields; unfold Rows.total0; simpl;
    try (unfold in_range; rewrite max_int_eq; unfold min_int;
         rewrite half_eq; lia).
  reflexivity.
Qed.

Lemma sum_over_perm f it1 it2 :
  Permutation it1 it2 -> sum_over f it1 = sum_over f it2.
Proof.
  intros H. induction H; simpl; lia.
Qed.

(** X8: the rows that [printInfo] hands to [sort.Sort] are one row per
    entry of the map, in the order of the iteration, followed by the
    row named [Total], each of whose five counters is the sum (as an
    [int]) of that counter over all entries.  The row of totals is thus
    the same for every order in which the map is iterated. *)
Theorem rows_end_with_the_sums it1 it2 :
  Permutation it1 it2 ->
  Rows.rows it1
  = map (fun e => Rows.row (fst e) (snd e)) it1
    ++ [Report.mkLResult (bytes "Total")
          (wrap (sum_over FileCount it1)) (wrap (sum_over CodeLines it1))
          (wrap (sum_over CommentLines it1)) (wrap (sum_over BlankLines it1))
          (wrap (sum_over TotalLines it1))] /\
  last (Rows.rows it1) Rows.total0 = last (Rows.rows it2) Rows.total0 /\
  Permutation (Rows.rows it1) (Rows.rows it2).
Proof.
  intros H. split; [apply rows_eq |].
  rewrite !rows_eq, !last_last.
  rewrite !(sum_over_perm _ it1 it2 H). split; [reflexivity |].
  apply Permutation_app_tail, Permutation_map, H.
Qed.

Lemma rows_end_with_the_sums_witness :
  last (Rows.rows [(bytes "Go", mkStats 2 14 10 1 3);
                   (bytes "C", mkStats 1 12 10 1 1)]) Rows.total0
  = last (Rows.rows [(bytes "C", mkStats 1 12 10 1 1);
                     (bytes "Go", mkStats 2 14 10 1 3)]) Rows.total0.
Proof.
  apply (rows_end_with_the_sums
           [(bytes "Go", mkStats 2 14 10 1 3); (bytes "C", mkStats 1 12 10 1 1)]
           [(bytes "C", mkStats 1 12 10 1 1); (bytes "Go", mkStats 2 14 10 1 3)]).
  apply perm_swap.
Defined.

Lemma row_partition n i : partition i -> Rows.partition (Rows.row n i).
Proof. intros H. exact H. Qed.

Lemma sum_over_partition it :
  (forall e, In e it -> partition (snd e)) ->
  wrap (sum_over CodeLines it + sum_over CommentLines it
        + sum_over BlankLines it)
  = wrap (sum_over TotalLines it).
Proof.
  induction it as [| e it IH]; intros H; simpl; [reflexivity |].
  assert (He : partition (snd e)) by (apply H; left; reflexivity).
  assert (Hit : forall e', In e' it -> partition (snd e'))
    by (intros e' Hin; apply H; right; exact Hin).
  specialize (IH Hit). unfold partition in He.
  rewrite <- He, wrap_add_l.
  rewrite <- (wrap_add_r _ (sum_over TotalLines it)), <- IH, wrap_add_r.
  f_equal. lia.
Qed.

(** X9: when the counters of every language pass Go's test
    [code + comment + blank == total], so does every row handed to
    [sort.Sort], the row of totals included. *)
Theorem rows_keep_the_partition it r :
  (forall e, In e it -> partition (snd e)) ->
  In r (Rows.rows it) ->
  Rows.partition r.
Proof.
  intros H Hr. rewrite rows_eq in Hr. apply in_app_or in Hr.
  destruct Hr as [Hr | [<- | []]].
  - apply in_map_iff in Hr. destruct Hr as (e & <- & He).
    apply row_partition, H, He.
  - unfold Rows.partition. simpl.
    rewrite wrap_add3. apply sum_over_partition, H.
Qed.

Lemma rows_keep_the_partition_witness :
  Rows.partition (Report.mkLResult (bytes "Total") 3 20 4 2 26).
Proof.
  apply (rows_keep_the_partition
           [(bytes "Go", mkStats 2 14 10 1 3); (bytes "C", mkStats 1 12 10 1 1)]).
  - intros e [<- | [<- | []]]; vm_compute; reflexivity.
  - vm_compute. right. right. left. reflexivity.
Defined.

(** ** A sorted report is determined by its rows *)

Lemma index_cons_succ {A : Type} (x : A) (t : list A) (i : Z) :
  0 <= i -> index (x :: t) (i + 1) = index t i.
Proof.
  intros Hi. unfold index.
  destruct (Z.ltb_spec (i + 1) 0); [lia |].
  destruct (Z.ltb_spec i 0); [lia |].
  replace (Z.to_nat (i + 1)) with (S (Z.to_nat i)) by lia. reflexivity.
Qed.

Lemma index_In {A : Type} (m : list A) (i : Z) (x : A) :
  index m i = Some x -> In x m.
Proof.
  unfold index. destruct (i <? 0); [discriminate |]. apply nth_error_In.
Qed.

Lemma In_index {A : Type} (m : list A) (x : A) :
  In x m -> exists i, 0 <= i < len m /\ index m i = Some x.
Proof.
  intros H. apply In_nth_error in H. destruct H as [n Hn].
  exists (Z.of_nat n). rewrite index_of_nat. split; [| exact Hn].
  assert (n < List.length m)%nat by (apply nth_error_Some; congruence).
  unfold len. lia.
Qed.

Lemma len_cons {A : Type} (x : A) (t : list A) : len (x :: t) = len t + 1.
Proof. unfold len. simpl List.length. lia. Qed.

Lemma sorted_inv x t :
  Report.sorted (x :: t) ->
  Report.sorted t /\ forall y, In y t -> Rows.less y x = false.
Proof.
  intros H. split.
  - intros i j Hi Hij Hj.
    specialize (H (i + 1) (j + 1)). rewrite len_cons in H.
    unfold Report.Less in *. rewrite !index_cons_succ in H by lia.
    apply H; lia.
  - intros y Hy. apply In_index in Hy. destruct Hy as (j & Hj & Hy).
    specialize (H 0 (j + 1)). rewrite len_cons in H.
    assert (H0 : Report.Less (x :: t) (j + 1) 0 = Some false) by (apply H; lia).
    rewrite (Less_less (x :: t) (j + 1) 0 y x) in H0.
    + congruence.
    + rewrite index_cons_succ by lia. exact Hy.
    + reflexivity.
Qed.

Lemma sorted_unique d1 d2 :
  Permutation d1 d2 -> Report.sorted d1 -> Report.sorted d2 ->
  NoDup (map Report.Name d1) -> d1 = d2.
Proof.
  revert d2. induction d1 as [| x t1 IH]; intros d2 Hp H1 H2 Hn.
  - apply Permutation_nil in Hp. auto.
  - destruct d2 as [| y t2].
    { apply Permutation_sym, Permutation_nil in Hp. discriminate. }
    apply sorted_inv in H1. destruct H1 as (S1 & L1).
    apply sorted_inv in H2. destruct H2 as (S2 & L2).
    simpl in Hn. apply NoDup_cons_iff in Hn. destruct Hn as (Hx & Hn).
    assert (E : x = y).
    { assert (Hxin : In x (y :: t2))
        by (apply (Permutation_in _ Hp); left; reflexivity).
      assert (Hyin : In y (x :: t1))
        by (apply (Permutation_in _ (Permutation_sym Hp)); left; reflexivity).
      destruct Hxin as [-> | Hxin]; [reflexivity |].
      destruct Hyin as [-> | Hyin]; [reflexivity |].
      exfalso. apply Hx.
      destruct (less_total x y (L2 x Hxin) (L1 y Hyin)) as (_ & ->).
      apply in_map, Hyin. }
    subst y. f_equal. apply IH; auto.
    apply (Permutation_cons_inv Hp).
Qed.

Lemma rows_names it :
  map Report.Name (Rows.rows it) = map fst it ++ [bytes "Total"].
Proof.
  rewrite rows_eq, map_app, map_map. simpl. reflexivity.
Qed.

(** X10: the printed report does not depend on the order in which Go
    iterates over the map, nor on how [sort.Sort] treats equal rows:
    when the names of the languages are distinct and none is [Total],
    two sorted arrangements of the rows, built from two iteration
    orders of the same entries, are equal row by row. *)
Theorem report_is_deterministic it1 it2 d1 d2 :
  Permutation it1 it2 ->
  NoDup (map fst it1) -> ~ In (bytes "Total") (map fst it1) ->
  Permutation (Rows.rows it1) d1 -> Report.sorted d1 ->
  Permutation (Rows.rows it2) d2 -> Report.sorted d2 ->
  d1 = d2.
Proof.
  intros Hit Hnd Ht Hp1 Hs1 Hp2 Hs2.
  assert (Hrows : Permutation (Rows.rows it1) (Rows.rows it2)).
  { rewrite !rows_eq, !(sum_over_perm _ it1 it2 Hit).
    apply Permutation_app_tail, Permutation_map, Hit. }
  apply sorted_unique; try assumption.
  - eapply Permutation_trans; [apply Permutation_sym, Hp1 |].
    eapply Permutation_trans; [apply Hrows | apply Hp2].
  - apply (Permutation_NoDup (Permutation_map Report.Name Hp1)).
    rewrite rows_names.
    apply (Permutation_NoDup (Permutation_cons_append _ _)).
    constructor; assumption.
Qed.

Lemma report_is_deterministic_witness :
  Permutation
    (Rows.rows [(bytes "Go", mkStats 2 14 10 1 3);
                (bytes "C", mkStats 1 12 10 1 1)]) example_report /\
  Permutation
    (Rows.rows [(bytes "C", mkStats 1 12 10 1 1);
                (bytes "Go", mkStats 2 14 10 1 3)]) example_report /\
  Report.sorted example_report /\
  example_report = example_report.
Proof.
  assert (Hnd : NoDup (map fst [(bytes "Go", mkStats 2 14 10 1 3);
                                (bytes "C", mkStats 1 12 10 1 1)])).
  { repeat constructor; simpl; intuition discriminate. }
  assert (Ht : ~ In (bytes "Total")
                 (map fst [(bytes "Go", mkStats 2 14 10 1 3);
                           (bytes "C", mkStats 1 12 10 1 1)]))
    by (simpl; intuition discriminate).
  assert (Hp1 : Permutation
                  (Rows.rows [(bytes "Go", mkStats 2 14 10 1 3);
                              (bytes "C", mkStats 1 12 10 1 1)])
                  example_report).
  { vm_compute.
    eapply perm_trans; [apply perm_skip, perm_swap | apply perm_swap]. }
  assert (Hp2 : Permutation
                  (Rows.rows [(bytes "C", mkStats 1 12 10 1 1);
                              (bytes "Go", mkStats 2 14 10 1 3)])
                  example_report).
  { vm_compute.
    eapply perm_trans; [apply perm_swap |].
    eapply perm_trans; [apply perm_skip, perm_swap | apply perm_swap]. }
  split; [exact Hp1 |]. split; [exact Hp2 |].
  split; [exact example_report_sorted |].
  apply (report_is_deterministic _ _ _ _ (perm_swap _ _ _) Hnd Ht
           Hp1 example_report_sorted Hp2 example_report_sorted).
Defined.

Lemma sum_over_ge f it e :
  (forall e', In e' it -> 0 <= f (snd e')) ->
  In e it -> 0 <= f (snd e) <= sum_over f it.
Proof.
  induction it as [| a it IH]; intros H Hin; [contradiction |].
  assert (Ha : 0 <= f (snd a)) by (apply H; left; reflexivity).
  assert (Hit : forall e', In e' it -> 0 <= f (snd e'))
    by (intros e' He'; apply H; right; exact He').
  assert (Hs : 0 <= sum_over f it).
  { clear IH Hin H Ha. induction it as [| b it IH]; simpl; [lia |].
    assert (0 <= f (snd b)) by (apply Hit; left; reflexivity).
    assert (0 <= sum_over f it)
      by (apply IH; intros e' He'; apply Hit; right; exact He').
    lia. }
  simpl. destruct Hin as [-> | Hin]; [lia |].
  specialize (IH Hit Hin). lia.
Qed.

(** X11: when no code-line count is negative and their sum does not
    overflow, only rows with as many code lines as the row of totals
    can stand before it in the sorted report. *)
Theorem only_ties_precede_the_totals it d i j r :
  (forall e, In e it -> 0 <= CodeLines (snd e)) ->
  sum_over CodeLines it <= max_int ->
  Permutation (Rows.rows it) d -> Report.sorted d ->
  index d i = Some r ->
  index d j = Some (last (Rows.rows it) Rows.total0) ->
  i < j ->
  Report.CodeLines r
  = Report.CodeLines (last (Rows.rows it) Rows.total0).
Proof.
  intros Hpos Hmax Hp Hs Hr Ht Hij.
  assert (Hi : 0 <= i).
  { assert (H : exists v, index d i = Some v) by eauto.
    apply index_Some_iff in H. lia. }
  assert (Hj : j < len d).
  { assert (H : exists v, index d j = Some v) by eauto.
    apply index_Some_iff in H. lia. }
  pose proof (Hs i j Hi Hij Hj) as Hless.
  rewrite (Less_less d j i _ _ Ht Hr) in Hless. injection Hless as Hless.
  assert (Hsum0 : 0 <= sum_over CodeLines it).
  { clear - Hpos. induction it as [| b it IH]; simpl; [lia |].
    assert (0 <= CodeLines (snd b)) by (apply Hpos; left; reflexivity).
    assert (0 <= sum_over CodeLines it)
      by (apply IH; intros e' He'; apply Hpos; right; exact He').
    lia. }
  assert (Hw : wrap (sum_over CodeLines it) = sum_over CodeLines it).
  { apply wrap_small. unfold in_range, min_int. rewrite half_eq. lia. }
  assert (Hle : Report.CodeLines r
                <= Report.CodeLines (last (Rows.rows it) Rows.total0)).
  { apply index_In in Hr. apply (Permutation_in _ (Permutation_sym Hp)) in Hr.
    rewrite rows_eq in Hr |- *. rewrite last_last. simpl. rewrite Hw.
    apply in_app_or in Hr. destruct Hr as [Hr | [<- | []]].
    - apply in_map_iff in Hr. destruct Hr as (e & <- & He). simpl.
      apply (sum_over_ge CodeLines it e Hpos He).
    - simpl. lia. }
  unfold Rows.less in Hless.
  destruct (Z.eqb_spec
              (Report.CodeLines (last (Rows.rows it) Rows.total0))
              (Report.CodeLines r)) as [E | E]; [lia |].
  destruct (Z.gtb_spec
              (Report.CodeLines (last (Rows.rows it) Rows.total0))
              (Report.CodeLines r)); [discriminate | lia].
Qed.

Lemma only_ties_precede_the_totals_witness :
  Report.CodeLines (Report.mkLResult (bytes "YACC") 1 5 0 0 5)
  = Report.CodeLines
      (last (Rows.rows [(bytes "YACC", mkStats 1 5 5 0 0)]) Rows.total0).
Proof.
  assert (Hs : Report.sorted
                 [Report.mkLResult (bytes "YACC") 1 5 0 0 5;
                  Report.mkLResult (bytes "Total") 1 5 0 0 5]).
  { intros i j Hi Hij Hj.
    change (len [Report.mkLResult (bytes "YACC") 1 5 0 0 5;
                 Report.mkLResult (bytes "Total") 1 5 0 0 5]) with 2 in Hj.
    assert (H : i = 0 /\ j = 1) by lia.
    destruct H as [-> ->]. vm_compute. reflexivity. }
  apply (only_ties_precede_the_totals
           [(bytes "YACC", mkStats 1 5 5 0 0)]
           [Report.mkLResult (bytes "YACC") 1 5 0 0 5;
            Report.mkLResult (bytes "Total") 1 5 0 0 5] 0 1).
  - intros e [<- | []]. simpl. lia.
  - vm_compute. discriminate.
  - vm_compute. apply Permutation_refl.
  - exact Hs.
  - reflexivity.
  - vm_compute. reflexivity.
  - lia.
Defined.

(** ** The map of counters *)

Lemma bytes_eqb_eq a b : bytes_eqb a b = true <-> a = b.
Proof.
  unfold bytes_eqb. destruct (list_eq_dec byte_eq_dec a b); split;
    congruence.
Qed.

Lemma bytes_eqb_refl a : bytes_eqb a a = true.
Proof. apply bytes_eqb_eq. reflexivity. Qed.

Lemma bytes_eqb_neq a b : a <> b -> bytes_eqb a b = false.
Proof.
  intros H. destruct (bytes_eqb a b) eqn:E; [| reflexivity].
  apply bytes_eqb_eq in E. contradiction.
Qed.

Lemma info_get_set_same info k v : info_get (info_set info k v) k = Some v.
Proof.
  induction info as [| [k' v'] t IH]; simpl.
  - rewrite bytes_eqb_refl. reflexivity.
  - destruct (bytes_eqb k k') eqn:E; simpl.
    + rewrite bytes_eqb_refl. reflexivity.
    + rewrite E. exact IH.
Qed.

Lemma info_get_set_other info k v k' :
  k' <> k -> info_get (info_set info k v) k' = info_get info k'.
Proof.
  intros Hne. induction info as [| [k0 v0] t IH]; simpl.
  - rewrite (bytes_eqb_neq k' k Hne). reflexivity.
  - destruct (bytes_eqb k k0) eqn:E; simpl.
    + apply bytes_eqb_eq in E. subst k0.
      rewrite (bytes_eqb_neq k' k Hne). reflexivity.
    + destruct (bytes_eqb k' k0); [reflexivity | exact IH].
Qed.

Lemma info_set_In info k v e :
  In e (info_set info k v) -> e = (k, v) \/ In e info.
Proof.
  induction info as [| [k' v'] t IH]; simpl.
  - intros [<- | []]. auto.
  - destruct (bytes_eqb k k'); simpl.
    + intros [<- | H]; auto.
    + intros [<- | H]; auto. apply IH in H. tauto.
Qed.

Lemma info_get_In info k v : info_get info k = Some v -> In (k, v) info.
Proof.
  induction info as [| [k' v'] t IH]; simpl; [discriminate |].
  destruct (bytes_eqb k k') eqn:E.
  - apply bytes_eqb_eq in E. subst k'. intros H. injection H as <-. auto.
  - intros H. right. apply IH, H.
Qed.

Lemma info_set_keys info k v :
  NoDup (map fst info) -> NoDup (map fst (info_set info k v)).
Proof.
  induction info as [| [k' v'] t IH]; simpl; intros H.
  - constructor; [intros [] | constructor].
  - apply NoDup_cons_iff in H. destruct H as (Hk & Ht).
    destruct (bytes_eqb k k') eqn:E; simpl.
    + apply bytes_eqb_eq in E. subst k'. constructor; assumption.
    + constructor; [| apply IH, Ht].
      intros Hin. apply in_map_iff in Hin. destruct Hin as ([k0 v0] & Hk0 & Hin).
      simpl in Hk0. subst k0. apply info_set_In in Hin.
      destruct Hin as [Hin | Hin].
      * injection Hin as -> _. rewrite bytes_eqb_refl in E. discriminate.
      * apply Hk. apply in_map_iff. exists (k', v0). auto.
Qed.

(** ** One file under one language *)

Lemma handleFileLang_eq read fname l info :
  handleFileLang read fname l info =
  match read fname with
  | None =>
      Some (match info_get info (Name l) with
            | Some _ => info
            | None => info_set info (Name l) zero_Stats
            end)
  | Some c =>
      match Update (lCommenter l) c (counters info (Name l)) with
      | Some i => Some (info_set info (Name l) i)
      | None => None
      end
  end.
Proof.
  unfold handleFileLang, counters, bind, ret.
  destruct (info_get info (Name l)) as [i |] eqn:E;
    destruct (read fname) as [c |]; try reflexivity.
  destruct (Update (lCommenter l) c zero_Stats) as [i |]; [| reflexivity].
  f_equal. clear E. induction info as [| [k v] t IH]; simpl.
  - rewrite bytes_eqb_refl. reflexivity.
  - destruct (bytes_eqb (Name l) k) eqn:Ek; simpl.
    + rewrite bytes_eqb_refl. reflexivity.
    + rewrite Ek, IH. reflexivity.
Qed.

(** X12: [handleFileLang] touches the entry of its language only.  For
    a file that cannot be read the entry is kept, or created with all
    counters 0 when the language is new, so the language appears in the
    report even with no file counted.  For a file that is read the
    entry becomes what [Update] makes of the former counters (of fresh
    ones for a new language), and a panic of [Update] is the only
    failure. *)
Theorem handleFileLang_updates_one_entry read fname l info :
  match read fname with
  | None =>
      exists info',
        handleFileLang read fname l info = Some info' /\
        info_get info' (Name l) = Some (counters info (Name l)) /\
        forall k, k <> Name l -> info_get info' k = info_get info k
  | Some c =>
      match Update (lCommenter l) c (counters info (Name l)) with
      | Some i =>
          exists info',
            handleFileLang read fname l info = Some info' /\
            info_get info' (Name l) = Some i /\
            forall k, k <> Name l -> info_get info' k = info_get info k
      | None => handleFileLang read fname l info = None
      end
  end.
Proof.
  rewrite handleFileLang_eq. unfold counters.
  destruct (read fname) as [c |].
  - destruct (Update (lCommenter l) c _) as [i |]; [| reflexivity].
    eexists. split; [reflexivity |]. split.
    + apply info_get_set_same.
    + intros k Hk. apply info_get_set_other, Hk.
  - destruct (info_get info (Name l)) as [i |] eqn:E.
    + exists info. auto.
    + eexists. split; [reflexivity |]. split.
      * apply info_get_set_same.
      * intros k Hk. apply info_get_set_other, Hk.
Qed.

(** ** One file under every language of the table *)

Lemma distinct_NoDup l : distinct l = true -> NoDup l.
Proof.
  induction l as [| x t IH]; simpl; intros H; [constructor |].
  apply andb_true_iff in H. destruct H as (Hx & Ht).
  constructor; [| apply IH, Ht].
  intros Hin. apply negb_true_iff in Hx.
  assert (E : existsb (bytes_eqb x) t = true).
  { apply existsb_exists. exists x. split; [exact Hin | apply bytes_eqb_refl]. }
  congruence.
Qed.

Lemma languages_names_distinct Ext Base :
  NoDup (map Name (languages Ext Base)).
Proof. apply distinct_NoDup. vm_compute. reflexivity. Qed.

Lemma languages_wf Ext Base :
  Forall (fun l => wf_Commenter (lCommenter l)) (languages Ext Base).
Proof.
  unfold languages.
  repeat (apply Forall_cons; [simpl; wf_by_computation |]).
  apply Forall_nil.
Qed.

(** What the loop of [handleFile] leaves in the entry of [lang]. *)
Lemma handleFile_body_eq read fname lang info :
  handleFile_body read fname lang info
  = if applies lang fname then handleFileLang read fname lang info
    else Some info.
Proof.
  unfold handleFile_body, applies. destruct (Match lang fname); [| reflexivity].
  simpl. destruct (_ || _); reflexivity.
Qed.

Lemma handleFile_body_spec read fname lang info :
  wf_Commenter (lCommenter lang) ->
  exists info',
    handleFile_body read fname lang info = Some info' /\
    info_get info' (Name lang)
    = (if applies lang fname
       then match read fname with
            | None => Some (counters info (Name lang))
            | Some c => Update (lCommenter lang) c (counters info (Name lang))
            end
       else info_get info (Name lang)) /\
    (forall k, k <> Name lang -> info_get info' k = info_get info k) /\
    (NoDup (map fst info) -> NoDup (map fst info')) /\
    (Forall (fun e => partition (snd e)) info ->
     Forall (fun e => partition (snd e)) info').
Proof.
  intros Hwf. rewrite handleFile_body_eq.
  destruct (applies lang fname); [| exists info; auto 6].
  rewrite handleFileLang_eq.
  assert (Hpart : Forall (fun e => partition (snd e)) info ->
                  partition (counters info (Name lang))).
  { intros Hall. unfold counters.
    destruct (info_get info (Name lang)) as [i |] eqn:E.
    - apply info_get_In in E. rewrite Forall_forall in Hall.
      apply (Hall _ E).
    - vm_compute. reflexivity. }
  assert (Hset : forall v, partition v ->
             Forall (fun e => partition (snd e)) info ->
             Forall (fun e => partition (snd e)) (info_set info (Name lang) v)).
  { intros v Hv Hall. apply Forall_forall. intros e He.
    apply info_set_In in He. destruct He as [-> | He]; [exact Hv |].
    rewrite Forall_forall in Hall. apply Hall, He. }
  destruct (read fname) as [c |].
  - destruct (Update_total (lCommenter lang) c (counters info (Name lang)) Hwf)
      as (i & Hi).
    rewrite Hi. eexists. split; [reflexivity |].
    split; [apply info_get_set_same |].
    split; [intros k Hk; apply info_get_set_other, Hk |].
    split; [apply info_set_keys |].
    intros Hall. apply Hset; [| exact Hall].
    destruct (Update_uniform _ _ _ _ Hi) as (k & m & bl & _ & Hu).
    rewrite Hu in Hi. injection Hi as <-.
    apply tally_partition. apply (Hpart Hall).
  - unfold counters in *.
    destruct (info_get info (Name lang)) as [i |] eqn:E.
    + exists info. auto 6.
    + eexists. split; [reflexivity |].
      split; [apply info_get_set_same |].
      split; [intros k Hk; apply info_get_set_other, Hk |].
      split; [apply info_set_keys |].
      intros Hall. apply Hset; [vm_compute; reflexivity | exact Hall].
Qed.

Lemma counters_ext info info' k :
  info_get info' k = info_get info k -> counters info' k = counters info k.
Proof. unfold counters. intros ->. reflexivity. Qed.

Lemma handleFile_loop_spec read fname langs info :
  NoDup (map Name langs) ->
  Forall (fun l => wf_Commenter (lCommenter l)) langs ->
  exists info',
    handleFile_loop read fname langs info = Some info' /\
    (forall lang, In lang langs ->
       info_get info' (Name lang)
       = (if applies lang fname
          then match read fname with
               | None => Some (counters info (Name lang))
               | Some c =>
                   Update (lCommenter lang) c (counters info (Name lang))
               end
          else info_get info (Name lang))) /\
    (forall k, ~ In k (map Name langs) -> info_get info' k = info_get info k) /\
    (NoDup (map fst info) -> NoDup (map fst info')) /\
    (Forall (fun e => partition (snd e)) info ->
     Forall (fun e => partition (snd e)) info').
Proof.
  revert info. induction langs as [| lang langs IH]; intros info Hnd Hwf.
  - exists info. simpl. repeat split; auto. intros lang [].
  - simpl in Hnd. apply NoDup_cons_iff in Hnd. destruct Hnd as (Hnew & Hnd).
    inversion Hwf as [| ? ? Hwf1 Hwfs]; subst.
    destruct (handleFile_body_spec read fname lang info Hwf1)
      as (info1 & Hbody & Hget1 & Hother1 & Hk1 & Hp1).
    destruct (IH info1 Hnd Hwfs) as (info' & Hloop & Hget & Hother & Hk & Hp).
    exists info'. simpl. rewrite Hbody. simpl.
    split; [exact Hloop |]. split; [| split; [| split]].
    + intros l [<- | Hl].
      * rewrite (Hother _ Hnew). exact Hget1.
      * assert (Hne : Name l <> Name lang).
        { intros E. apply Hnew. rewrite <- E. apply in_map, Hl. }
        rewrite (Hget l Hl), (counters_ext info info1 _ (Hother1 _ Hne)),
          (Hother1 _ Hne).
        reflexivity.
    + intros k Hk'. simpl in Hk'.
      rewrite Hother by tauto. apply Hother1. intros E. apply Hk'. auto.
    + auto.
    + auto.
Qed.

(** X13: [handleFile] never panics, and it counts the file once under
    each language of the table that applies to it (its matcher accepts
    the name, and for [GoTest] the name ends in [_test.go]): the entry
    of such a language becomes what [Update] makes of its former
    counters on the content read, or is kept (created with counters 0 if
    new) when the file cannot be read.  The entries of all other
    languages and all other keys of the map are as before. *)
Theorem handleFile_counts_each_applying_language Ext Base read fname info :
  exists info',
    handleFile Ext Base read fname info = Some info' /\
    (forall lang, In lang (languages Ext Base) ->
       info_get info' (Name lang)
       = (if applies lang fname
          then match read fname with
               | None => Some (counters info (Name lang))
               | Some c =>
                   Update (lCommenter lang) c (counters info (Name lang))
               end
          else info_get info (Name lang))) /\
    (forall k, ~ In k (map Name (languages Ext Base)) ->
       info_get info' k = info_get info k).
Proof.
  destruct (handleFile_loop_spec read fname (languages Ext Base) info
              (languages_names_distinct Ext Base) (languages_wf Ext Base))
    as (info' & H & Hget & Hother & _).
  exists info'. auto.
Qed.

(** X14: a readable file whose extension is [.go] is counted under
    [Go], and under [GoTest] exactly when its name ends in [_test.go]. *)
Theorem go_files_and_go_tests Ext Base read fname info c :
  Ext fname = bytes ".go" -> read fname = Some c ->
  exists info',
    handleFile Ext Base read fname info = Some info' /\
    info_get info' (bytes "Go")
    = Update cComments c (counters info (bytes "Go")) /\
    info_get info' (bytes "GoTest")
    = (if HasSuffix fname (bytes "_test.go")
       then Update cComments c (counters info (bytes "GoTest"))
       else info_get info (bytes "GoTest")).
Proof.
  intros HExt Hread.
  destruct (handleFile_loop_spec read fname (languages Ext Base) info
              (languages_names_distinct Ext Base) (languages_wf Ext Base))
    as (info' & H & Hget & _).
  exists info'. split; [exact H |]. split.
  - pose proof (Hget (mkLanguage (bytes "Go") (mExt Ext [".go"%string])
                                 cComments)) as Hg.
    unfold applies, Match, Name, mExt in Hg.
    cbn [lNamer lMatcher lCommenter existsb] in Hg.
    rewrite HExt, Hread, bytes_eqb_refl in Hg.
    rewrite Hg by (unfold languages; simpl; tauto).
    reflexivity.
  - pose proof (Hget (mkLanguage (bytes "GoTest") (mExt Ext [".go"%string])
                                 cComments)) as Hg.
    unfold applies, Match, Name, mExt in Hg.
    cbn [lNamer lMatcher lCommenter existsb] in Hg.
    rewrite HExt, Hread, bytes_eqb_refl in Hg.
    rewrite Hg by (unfold languages; simpl; tauto).
    reflexivity.
Qed.

Lemma go_files_and_go_tests_witness :
  exists info',
    handleFile path_Ext (fun p => p) (fun _ => Some (line "package a"))
               (bytes "src/a_test.go") []
    = Some info' /\
    info_get info' (bytes "Go") = Some (mkStats 1 1 1 0 0) /\
    info_get info' (bytes "GoTest") = Some (mkStats 1 1 1 0 0).
Proof.
  assert (HExt : path_Ext (bytes "src/a_test.go") = bytes ".go")
    by (vm_compute; reflexivity).
  destruct (go_files_and_go_tests path_Ext (fun p => p)
              (fun _ => Some (line "package a")) (bytes "src/a_test.go") []
              (line "package a") HExt eq_refl)
    as (info' & H & Hgo & Htest).
  exists info'. split; [exact H |]. split.
  - rewrite Hgo. vm_compute. reflexivity.
  - rewrite Htest. vm_compute. reflexivity.
Defined.

(** X15: a readable file whose extension is [.ts] is counted twice: the
    table has the two entries [Typescript] and [TypeScript] for this
    extension, and the file is counted under both names. *)
Theorem ts_files_are_counted_twice Ext Base read fname info c :
  Ext fname = bytes ".ts" -> read fname = Some c ->
  exists info',
    handleFile Ext Base read fname info = Some info' /\
    info_get info' (bytes "Typescript")
    = Update cComments c (counters info (bytes "Typescript")) /\
    info_get info' (bytes "TypeScript")
    = Update cComments c (counters info (bytes "TypeScript")).
Proof.
  intros HExt Hread.
  destruct (handleFile_loop_spec read fname (languages Ext Base) info
              (languages_names_distinct Ext Base) (languages_wf Ext Base))
    as (info' & H & Hget & _).
  exists info'. split; [exact H |]. split.
  - pose proof (Hget (mkLanguage (bytes "Typescript") (mExt Ext [".ts"%string])
                                 cComments)) as Hg.
    unfold applies, Match, Name, mExt in Hg.
    cbn [lNamer lMatcher lCommenter existsb] in Hg.
    rewrite HExt, Hread, bytes_eqb_refl in Hg.
    rewrite Hg by (unfold languages; simpl; tauto).
    reflexivity.
  - pose proof (Hget (mkLanguage (bytes "TypeScript") (mExt Ext [".ts"%string])
                                 cComments)) as Hg.
    unfold applies, Match, Name, mExt in Hg.
    cbn [lNamer lMatcher lCommenter existsb] in Hg.
    rewrite HExt, Hread, bytes_eqb_refl in Hg.
    rewrite Hg by (unfold languages; simpl; tauto).
    reflexivity.
Qed.

Lemma ts_files_are_counted_twice_witness :
  exists info',
    handleFile path_Ext (fun p => p) (fun _ => Some (line "let x = 1"))
               (bytes "web/app.ts") []
    = Some info' /\
    info_get info' (bytes "Typescript") = Some (mkStats 1 1 1 0 0) /\
    info_get info' (bytes "TypeScript") = Some (mkStats 1 1 1 0 0).
Proof.
  assert (HExt : path_Ext (bytes "web/app.ts") = bytes ".ts")
    by (vm_compute; reflexivity).
  destruct (ts_files_are_counted_twice path_Ext (fun p => p)
              (fun _ => Some (line "let x = 1")) (bytes "web/app.ts") []
              (line "let x = 1") HExt eq_refl)
    as (info' & H & H1 & H2).
  exists info'. split; [exact H |]. split.
  - rewrite H1. vm_compute. reflexivity.
  - rewrite H2. vm_compute. reflexivity.
Defined.

(** ** From the files to the report *)

Lemma handleFiles_invariant Ext Base read files info :
  NoDup (map fst info) -> Forall (fun e => partition (snd e)) info ->
  exists info',
    handleFiles Ext Base read files info = Some info' /\
    NoDup (map fst info') /\ Forall (fun e => partition (snd e)) info'.
Proof.
  revert info. induction files as [| f files IH]; intros info Hk Hp.
  - exists info. simpl. auto.
  - destruct (handleFile_loop_spec read f (languages Ext Base) info
                (languages_names_distinct Ext Base) (languages_wf Ext Base))
      as (info1 & H & _ & _ & Hk1 & Hp1).
    destruct (IH info1 (Hk1 Hk) (Hp1 Hp)) as (info' & H' & Hk' & Hp').
    exists info'. simpl. unfold handleFile. rewrite H. simpl. auto.
Qed.

(** X16: whatever files are handled, starting from the empty map, the
    run does not panic, the keys of the map stay distinct, and every
    row of the report built from the map (in any order of iteration),
    the row of totals included, passes Go's test
    [code + comment + blank == total]. *)
Theorem every_report_row_keeps_the_partition Ext Base read files :
  exists info,
    handleFiles Ext Base read files [] = Some info /\
    NoDup (map fst info) /\
    forall it r,
      Permutation info it -> In r (Rows.rows it) -> Rows.partition r.
Proof.
  destruct (handleFiles_invariant Ext Base read files [])
    as (info & H & Hk & Hp); [constructor | constructor |].
  exists info. split; [exact H |]. split; [exact Hk |].
  intros it r Hperm Hr.
  assert (Hit : forall e, In e it -> partition (snd e)).
  { intros e He. rewrite Forall_forall in Hp. apply Hp.
    apply (Permutation_in _ (Permutation_sym Hperm)), He. }
  rewrite rows_eq in Hr. apply in_app_or in Hr.
  destruct Hr as [Hr | [<- | []]].
  - apply in_map_iff in Hr. destruct Hr as (e & <- & He).
    apply row_partition, Hit, He.
  - unfold Rows.partition. simpl.
    rewrite wrap_add3. apply sum_over_partition, Hit.
Qed.

(** ** The walk over the file system *)

Lemma Node_induction (P : Node -> Prop) :
  P NoStat -> P Regular -> P Special -> P (Dir None) ->
  (forall fs, Forall (fun e => P (snd e)) fs -> P (Dir (Some fs))) ->
  forall node, P node.
Proof.
  intros H1 H2 H3 H4 H5. fix IH 1. intros [| | | [fs |]]; try assumption.
  apply H5. induction fs as [| [name child] fs IHfs]; constructor.
  - simpl. apply IH.
  - exact IHfs.
Qed.

Lemma add_Dir Join n fs files :
  add Join n (Dir (Some fs)) files
  = if existsb (fun f => bytes_eqb (fst f) (bytes ".nosloc")) fs
    then Some files else add_entries Join n fs files.
Proof.
  simpl. destruct (existsb _ fs); [reflexivity |].
  revert files. induction fs as [| [name child] fs IH]; intros files;
    [reflexivity |].
  simpl. destruct (index name 0) as [c |]; [| reflexivity]. simpl.
  destruct (negb (Byte.eqb c "."%byte)).
  - destruct (add Join (Join n name) child files) as [files1 |];
      [| reflexivity].
    simpl. apply IH.
  - simpl. apply IH.
Qed.

Lemma eqb_dot c : negb (Byte.eqb c "."%byte) = true <-> c <> "."%byte.
Proof.
  split.
  - intros H ->. discriminate.
  - intros H. destruct (Byte.eqb c "."%byte) eqn:E; [| reflexivity].
    apply byte_dec_bl in E. contradiction.
Qed.

Lemma add_entries_spec Join n fs :
  Forall (fun e =>
            forall n files files',
              add Join n (snd e) files = Some files' ->
              exists new,
                files' = files ++ new /\
                forall p, In p new <-> visible Join n (snd e) p) fs ->
  forall files files',
    add_entries Join n fs files = Some files' ->
    exists new,
      files' = files ++ new /\
      forall p,
        In p new <->
        exists name child c,
          In (name, child) fs /\ index name 0 = Some c /\ c <> "."%byte /\
          visible Join (Join n name) child p.
Proof.
  induction fs as [| [name child] fs IH]; intros Hall files files' H.
  - simpl in H. injection H as <-. exists []. rewrite app_nil_r.
    split; [reflexivity |]. intros p. split; [intros [] |].
    intros (? & ? & ? & [] & _).
  - inversion Hall as [| ? ? Hchild Hrest]; subst. simpl in Hchild.
    simpl in H. unfold bind in H.
    destruct (index name 0) as [c |] eqn:Ec; [| discriminate].
    destruct (negb (Byte.eqb c "."%byte)) eqn:Edot.
    + destruct (add Join (Join n name) child files) as [files1 |] eqn:Ea;
        [| discriminate].
      destruct (Hchild _ _ _ Ea) as (new1 & -> & Hnew1).
      destruct (IH Hrest _ _ H) as (new2 & -> & Hnew2).
      exists (new1 ++ new2). rewrite app_assoc. split; [reflexivity |].
      intros p. rewrite in_app_iff, Hnew1, Hnew2. split.
      * intros [Hv | (name' & child' & c' & Hin & Hc' & Hd' & Hv)].
        -- exists name, child, c. apply eqb_dot in Edot.
           repeat split; auto. left. reflexivity.
        -- exists name', child', c'. repeat split; auto. right. exact Hin.
      * intros (name' & child' & c' & [Hin | Hin] & Hc' & Hd' & Hv).
        -- injection Hin as <- <-. left. exact Hv.
        -- right. exists name', child', c'. auto.
    + simpl in H. destruct (IH Hrest _ _ H) as (new2 & -> & Hnew2).
      exists new2. split; [reflexivity |].
      intros p. rewrite Hnew2. split.
      * intros (name' & child' & c' & Hin & Hc' & Hd' & Hv).
        exists name', child', c'. repeat split; auto. right. exact Hin.
      * intros (name' & child' & c' & [Hin | Hin] & Hc' & Hd' & Hv).
        -- injection Hin as <- <-. exfalso.
           rewrite Ec in Hc'. injection Hc' as <-.
           apply eqb_dot in Hd'. congruence.
        -- exists name', child', c'. auto.
Qed.

Lemma add_spec Join node :
  forall n files files',
    add Join n node files = Some files' ->
    exists new,
      files' = files ++ new /\
      forall p, In p new <-> visible Join n node p.
Proof.
  induction node as [| | | | fs IH] using Node_induction;
    intros n files files' H.
  - simpl in H. injection H as <-. exists []. rewrite app_nil_r.
    split; [reflexivity |]. intros p. split; [intros [] | intros Hv; inversion Hv].
  - simpl in H. injection H as <-. exists [n]. split; [reflexivity |].
    intros p. split.
    + intros [<- | []]. constructor.
    + intros Hv. inversion Hv. left. reflexivity.
  - simpl in H. injection H as <-. exists []. rewrite app_nil_r.
    split; [reflexivity |]. intros p. split; [intros [] | intros Hv; inversion Hv].
  - simpl in H. injection H as <-. exists []. rewrite app_nil_r.
    split; [reflexivity |]. intros p. split; [intros [] | intros Hv; inversion Hv].
  - rewrite add_Dir in H.
    destruct (existsb (fun f => bytes_eqb (fst f) (bytes ".nosloc")) fs) eqn:E.
    + injection H as <-. exists []. rewrite app_nil_r.
      split; [reflexivity |]. intros p. split; [intros [] |].
      intros Hv. inversion Hv; subst. congruence.
    + destruct (add_entries_spec Join n fs IH _ _ H) as (new & -> & Hnew).
      exists new. split; [reflexivity |].
      intros p. rewrite Hnew. split.
      * intros (name & child & c & Hin & Hc & Hd & Hv).
        eapply visible_entry; eassumption.
      * intros Hv. inversion Hv; subst. eauto 8.
Qed.

Lemma add_entries_total Join n fs :
  Forall (fun e =>
            well_named (snd e) = true ->
            forall n files, exists files', add Join n (snd e) files = Some files')
         fs ->
  well_named (Dir (Some fs)) = true ->
  forall files, exists files', add_entries Join n fs files = Some files'.
Proof.
  induction fs as [| [name child] fs IH]; intros Hall Hw files.
  - simpl. unfold ret. eauto.
  - inversion Hall as [| ? ? Hchild Hrest]; subst. simpl in Hchild.
    simpl in Hw. apply andb_true_iff in Hw. destruct Hw as (Hw & Hws).
    apply andb_true_iff in Hw. destruct Hw as (Hname & Hwc).
    assert (Hc : exists c, index name 0 = Some c).
    { destruct name as [| c name]; [discriminate | exists c; reflexivity]. }
    destruct Hc as (c & Hc). simpl. rewrite Hc. simpl.
    destruct (negb (Byte.eqb c "."%byte)).
    + destruct (Hchild Hwc (Join n name) files) as (files1 & ->). simpl.
      apply (IH Hrest Hws).
    + simpl. apply (IH Hrest Hws).
Qed.

Lemma add_total Join node :
  well_named node = true ->
  forall n files, exists files', add Join n node files = Some files'.
Proof.
  induction node as [| | | | fs IH] using Node_induction;
    intros Hw n files; try (simpl; unfold ret; eauto; fail).
  rewrite add_Dir. destruct (existsb _ fs); [eauto |].
  apply add_entries_total; assumption.
Qed.

(** X17: [add] appends to [files], and what it appends are exactly the
    paths of the visible regular files at or below its argument: those
    reached through directories that hold no entry named [.nosloc] and
    through entries whose names do not start with a dot.  The former
    content of [files] is kept, and the call returns when no entry has
    an empty name. *)
Theorem add_collects_the_visible_files Join n node files :
  well_named node = true ->
  exists new,
    add Join n node files = Some (files ++ new) /\
    forall p, In p new <-> visible Join n node p.
Proof.
  intros Hw. destruct (add_total Join node Hw n files) as (files' & H).
  destruct (add_spec Join node n files files' H) as (new & -> & Hnew).
  exists new. auto.
Qed.

Lemma add_collects_the_visible_files_witness :
  add example_Join (bytes ".") example_tree []
  = Some [bytes "./a.go"; bytes "./sub/b.c"] /\
  exists new,
    add example_Join (bytes ".") example_tree [] = Some ([] ++ new) /\
    forall p, In p new <-> visible example_Join (bytes ".") example_tree p.
Proof.
  split; [vm_compute; reflexivity |].
  apply (add_collects_the_visible_files example_Join (bytes ".")
           example_tree []).
  vm_compute. reflexivity.
Defined.

(** ** What the columns of files and of lines count *)

Lemma handleFile_counters Ext Base read f info lang :
  In lang (languages Ext Base) ->
  exists info',
    handleFile Ext Base read f info = Some info' /\
    FileCount (counters info' (Name lang))
    = add_lines (List.length (counted_contents lang read [f]))
                (FileCount (counters info (Name lang))) /\
    TotalLines (counters info' (Name lang))
    = add_lines (count_nl (List.concat (counted_contents lang read [f])))
                (TotalLines (counters info (Name lang))).
Proof.
  intros Hin.
  destruct (handleFile_loop_spec read f (languages Ext Base) info
              (languages_names_distinct Ext Base) (languages_wf Ext Base))
    as (info' & H & Hget & _).
  exists info'. split; [exact H |].
  specialize (Hget lang Hin).
  unfold counted_contents. simpl. rewrite app_nil_r.
  assert (Hwf : wf_Commenter (lCommenter lang)).
  { pose proof (languages_wf Ext Base) as Hall.
    rewrite Forall_forall in Hall. apply Hall, Hin. }
  destruct (applies lang f).
  - destruct (read f) as [c |].
    + destruct (Update_total (lCommenter lang) c
                  (counters info (Name lang)) Hwf) as (i & Hi).
      destruct (Update_uniform _ _ _ _ Hi) as (k & m & bl & Hsum & Hu).
      unfold counters at 1 3. rewrite Hget, Hu. simpl.
      rewrite app_nil_r, Hsum. auto.
    + unfold counters at 1 3. rewrite Hget. simpl. auto.
  - unfold counters in *. rewrite Hget. simpl. auto.
Qed.

(** X18: after any files have been handled, starting from the empty
    map, the file counter of every language of the table has been
    incremented once for each file the language applies to and that
    could be read, and its counter of total lines once for each
    newline byte of these files. *)
Theorem files_and_lines_columns Ext Base read files lang :
  In lang (languages Ext Base) ->
  exists info,
    handleFiles Ext Base read files [] = Some info /\
    FileCount (counters info (Name lang))
    = add_lines (List.length (counted_contents lang read files)) 0 /\
    TotalLines (counters info (Name lang))
    = add_lines (count_nl (List.concat (counted_contents lang read files))) 0.
Proof.
  intros Hin.
  change 0 with (FileCount (counters [] (Name lang))) at 1.
  change 0 with (TotalLines (counters [] (Name lang))).
  generalize (@nil (list byte * Stats)) as info0.
  induction files as [| f files IH]; intros info0.
  - exists info0. simpl. auto.
  - destruct (handleFile_counters Ext Base read f info0 lang Hin)
      as (info1 & H1 & Hf1 & Ht1).
    destruct (IH info1) as (info & H & Hf & Ht).
    exists info. simpl. rewrite H1. simpl. split; [exact H |].
    unfold counted_contents in *. simpl flat_map.
    rewrite length_app, concat_app, count_nl_app.
    rewrite Hf, Ht, Hf1, Ht1, !add_lines_add.
    simpl flat_map. rewrite app_nil_r.
    split; f_equal; lia.
Qed.

Lemma files_and_lines_columns_witness :
  exists info,
    handleFiles path_Ext (fun p => p)
      (fun f => if bytes_eqb f (bytes "b.go") then None
                else Some (line "package a" ++ line ""))
      [bytes "a.go"; bytes "b.go"; bytes "c.txt"] [] = Some info /\
    FileCount (counters info (bytes "Go")) = 1 /\
    TotalLines (counters info (bytes "Go")) = 2.
Proof.
  apply (files_and_lines_columns path_Ext (fun p => p)
           (fun f => if bytes_eqb f (bytes "b.go") then None
                     else Some (line "package a" ++ line ""))
           [bytes "a.go"; bytes "b.go"; bytes "c.txt"]
           (mkLanguage (bytes "Go") (mExt path_Ext [".go"%string]) cComments)).
  unfold languages. simpl. tauto.
Defined.

(** ** The counters of a language are its files, counted in turn *)

Lemma fold_Update_None l cs :
  fold_left (fun acc c => s <- acc ;; Update l c s) cs None = None.
Proof. induction cs as [| c cs IH]; simpl; auto. Qed.

Lemma Updates_cons l c cs s :
  Updates l (c :: cs) s = (s1 <- Update l c s ;; Updates l cs s1).
Proof.
  unfold Updates. simpl. destruct (Update l c s) as [s1 |]; simpl.
  - reflexivity.
  - apply fold_Update_None.
Qed.

Lemma Updates_app l cs1 cs2 s :
  Updates l (cs1 ++ cs2) s = (s1 <- Updates l cs1 s ;; Updates l cs2 s1).
Proof.
  revert s. induction cs1 as [| c cs1 IH]; intros s.
  - reflexivity.
  - simpl app. rewrite !Updates_cons.
    destruct (Update l c s) as [s1 |]; simpl; [apply IH | reflexivity].
Qed.

Lemma Updates_perm l cs cs' :
  wf_Commenter l -> Permutation cs cs' ->
  forall s, Updates l cs s = Updates l cs' s.
Proof.
  intros Hwf Hp. induction Hp as [| c cs cs' Hp IH | c1 c2 cs | ? ? ? ? IH1 ? IH2];
    intros s.
  - reflexivity.
  - rewrite !Updates_cons. destruct (Update l c s); simpl; auto.
  - rewrite !Updates_cons.
    destruct (Update_total l c1 s Hwf) as (s1 & H1).
    destruct (Update_total l c2 s Hwf) as (s2 & H2).
    destruct (Update_uniform _ _ _ _ H1) as (k1 & m1 & b1 & _ & A1).
    destruct (Update_uniform _ _ _ _ H2) as (k2 & m2 & b2 & _ & A2).
    rewrite (A1 s), (A2 s). simpl. rewrite !Updates_cons, A1, A2. simpl.
    rewrite !tally_incr_FileCount, (tally_comm k1 m1 b1). reflexivity.
  - rewrite IH1. apply IH2.
Qed.

Lemma handleFile_folds Ext Base read f info lang :
  In lang (languages Ext Base) ->
  exists info',
    handleFile Ext Base read f info = Some info' /\
    Updates (lCommenter lang) (counted_contents lang read [f])
            (counters info (Name lang))
    = Some (counters info' (Name lang)).
Proof.
  intros Hin.
  destruct (handleFile_loop_spec read f (languages Ext Base) info
              (languages_names_distinct Ext Base) (languages_wf Ext Base))
    as (info' & H & Hget & _).
  exists info'. split; [exact H |].
  specialize (Hget lang Hin).
  assert (Hc : counters info' (Name lang)
               = match info_get info' (Name lang) with
                 | Some i => i
                 | None => zero_Stats
                 end) by reflexivity.
  rewrite Hget in Hc. rewrite Hc. clear Hc Hget.
  unfold counted_contents. simpl. rewrite app_nil_r.
  destruct (applies lang f); [| reflexivity].
  destruct (read f) as [c |]; [| reflexivity].
  rewrite Updates_cons.
  assert (Hwf : wf_Commenter (lCommenter lang)).
  { pose proof (languages_wf Ext Base) as Hall.
    rewrite Forall_forall in Hall. apply Hall, Hin. }
  destruct (Update_total (lCommenter lang) c
              (counters info (Name lang)) Hwf) as (i & Hi).
  rewrite Hi. reflexivity.
Qed.

Lemma handleFiles_folds Ext Base read files info0 lang :
  In lang (languages Ext Base) ->
  exists info,
    handleFiles Ext Base read files info0 = Some info /\
    Updates (lCommenter lang) (counted_contents lang read files)
            (counters info0 (Name lang))
    = Some (counters info (Name lang)).
Proof.
  intros Hin. revert info0. induction files as [| f files IH]; intros info0.
  - exists info0. simpl. auto.
  - destruct (handleFile_folds Ext Base read f info0 lang Hin)
      as (info1 & H1 & Hu1).
    destruct (IH info1) as (info & H & Hu).
    exists info. split; [simpl; rewrite H1; simpl; exact H |].
    assert (E : counted_contents lang read (f :: files)
                = counted_contents lang read [f]
                  ++ counted_contents lang read files).
    { unfold counted_contents. simpl. rewrite app_nil_r. reflexivity. }
    rewrite E.
    rewrite Updates_app, Hu1. simpl. exact Hu.
Qed.

(** X19: the counters a language of the table ends with are those of
    [Update] applied in turn, starting from counters 0, to the contents
    of the files the language applies to and that could be read; and
    they do not depend on the order in which the files are handled. *)
Theorem counters_are_the_files_in_any_order Ext Base read files files' lang :
  In lang (languages Ext Base) ->
  Permutation files files' ->
  exists info info',
    handleFiles Ext Base read files [] = Some info /\
    handleFiles Ext Base read files' [] = Some info' /\
    Updates (lCommenter lang) (counted_contents lang read files) zero_Stats
    = Some (counters info (Name lang)) /\
    counters info (Name lang) = counters info' (Name lang).
Proof.
  intros Hin Hp.
  destruct (handleFiles_folds Ext Base read files [] lang Hin)
    as (info & H & Hu).
  destruct (handleFiles_folds Ext Base read files' [] lang Hin)
    as (info' & H' & Hu').
  exists info, info'. split; [exact H |]. split; [exact H' |].
  split; [exact Hu |].
  assert (Hwf : wf_Commenter (lCommenter lang)).
  { pose proof (languages_wf Ext Base) as Hall.
    rewrite Forall_forall in Hall. apply Hall, Hin. }
  assert (Hc : Permutation (counted_contents lang read files)
                           (counted_contents lang read files')).
  { unfold counted_contents. apply Permutation_flat_map, Hp. }
  rewrite (Updates_perm _ _ _ Hwf Hc) in Hu. congruence.
Qed.

Lemma counters_are_the_files_in_any_order_witness :
  exists info info',
    handleFiles path_Ext (fun p => p)
      (fun f => if bytes_eqb f (bytes "a.go") then Some (line "// a")
                else Some (line "x := 1" ++ line ""))
      [bytes "a.go"; bytes "b.go"] [] = Some info /\
    handleFiles path_Ext (fun p => p)
      (fun f => if bytes_eqb f (bytes "a.go") then Some (line "// a")
                else Some (line "x := 1" ++ line ""))
      [bytes "b.go"; bytes "a.go"] [] = Some info' /\
    Some (mkStats 2 3 1 1 1) = Some (counters info (bytes "Go")) /\
    counters info (bytes "Go") = counters info' (bytes "Go").
Proof.
  apply (counters_are_the_files_in_any_order path_Ext (fun p => p)
           (fun f => if bytes_eqb f (bytes "a.go") then Some (line "// a")
                     else Some (line "x := 1" ++ line ""))
           [bytes "a.go"; bytes "b.go"] [bytes "b.go"; bytes "a.go"]
           (mkLanguage (bytes "Go") (mExt path_Ext [".go"%string]) cComments)).
  - unfold languages. simpl. tauto.
  - apply perm_swap.
Defined.

(** ** Files of no language *)

Lemma handleFile_loop_skips read fname langs info :
  forallb (fun lang => negb (applies lang fname)) langs = true ->
  handleFile_loop read fname langs info = Some info.
Proof.
  induction langs as [| lang langs IH]; intros H; [reflexivity |].
  simpl in H. apply andb_true_iff in H. destruct H as (Hl & Hrest).
  apply negb_true_iff in Hl.
  simpl. rewrite handleFile_body_eq, Hl. simpl. apply IH, Hrest.
Qed.

(** X20: a file to which no language of the table applies is skipped
    without a trace: [handleFile] returns the map as it was, whether or
    not the file can be read. *)
Theorem unrecognized_files_are_skipped Ext Base read fname info :
  forallb (fun lang => negb (applies lang fname)) (languages Ext Base) = true ->
  handleFile Ext Base read fname info = Some info.
Proof. intros H. apply handleFile_loop_skips, H. Qed.

Lemma unrecognized_files_are_skipped_witness :
  handleFile path_Ext (fun p => p) (fun _ => None) (bytes "doc/README")
             [(bytes "Go", mkStats 1 1 1 0 0)]
  = Some [(bytes "Go", mkStats 1 1 1 0 0)].
Proof.
  apply (unrecognized_files_are_skipped path_Ext (fun p => p) (fun _ => None)
           (bytes "doc/README") [(bytes "Go", mkStats 1 1 1 0 0)]).
  vm_compute. reflexivity.
Defined.
